(** * Snake: a shallow embedding of [main.py] and its specification

    The program is a Pygame snake game.  Its state is a [Snake] (a list of
    pixel cells, head first, a heading and a segment size), a [Food] (one
    cell and a size) and the controller's locals in [main] (score,
    framerate, the [game_over] and [running] flags).

    Python integers are unbounded, so they are [Z].  Python's [//] on a
    positive divisor is [Z.div].  An operation that can raise returns a
    [result]; the three exceptions that the code can raise are listed in
    [exn].  [random.randint] is the only source of non-determinism: the
    controller runs in a monad [M] that reads raw draws from a list, and
    [randint a b] maps a raw draw onto the inclusive range [[a, b]].  A
    computation that needs a draw when none is left yields [Starved]: the
    rejection loop of [Food.reset_position] has not left its [while True]
    within the draws supplied.

    Rendering ([Snake.draw], [Food.draw], [screen.fill], [font.render],
    [display.flip]) and pacing ([clock.tick]) read the state and never
    write it; they are left out of the model. *)

From Stdlib Require Import ZArith List Bool Lia.
Import ListNotations.
Local Open Scope Z_scope.

(** ** Constants (main.py, lines 9-11) *)

Definition WIDTH : Z := 800.
Definition HEIGHT : Z := 600.
Definition INITIAL_FRAMERATE : Z := 5.
Definition MAX_FRAMERATE : Z := 20.

(** ** Colors (main.py, lines 15-18) and drawing commands *)

Definition Color : Type := (Z * Z * Z)%type.

Definition BLACK : Color := (0, 0, 0).
Definition WHITE : Color := (255, 255, 255).
Definition GREEN : Color := (0, 255, 0).
Definition RED : Color := (255, 0, 0).

(** The four numbers of a [pygame.Rect]: it covers the pixels of columns
    [left .. left + width - 1] and rows [top .. top + height - 1]. *)
Record Rect : Type := mkRect {
  left : Z;
  top : Z;
  width : Z;
  height : Z
}.

(** One call [pygame.draw.rect(surface, color, rect)]. *)
Definition DrawCmd : Type := (Color * Rect)%type.

(** ** Results and the draw-reading monad *)

Inductive exn : Type := IndexError | ZeroDivisionError | ValueError.

Inductive result (A : Type) : Type :=
| Ok (a : A)
| Raise (e : exn)
| Starved.

Arguments Ok {A} a.
Arguments Raise {A} e.
Arguments Starved {A}.

Definition rbind {A B : Type} (r : result A) (k : A -> result B) : result B :=
  match r with
  | Ok a => k a
  | Raise e => Raise e
  | Starved => Starved
  end.

Definition M (A : Type) : Type := list Z -> result (A * list Z).

Definition ret {A : Type} (a : A) : M A := fun rng => Ok (a, rng).

Definition bind {A B : Type} (m : M A) (k : A -> M B) : M B :=
  fun rng =>
    match m rng with
    | Ok (a, rng') => k a rng'
    | Raise e => Raise e
    | Starved => Starved
    end.

Definition lift {A : Type} (r : result A) : M A :=
  fun rng => rbind r (fun a => Ok (a, rng)).

Definition throw {A : Type} (e : exn) : M A := fun _ => Raise e.

(** The next raw draw of the random source. *)
Definition next_draw : M Z :=
  fun rng =>
    match rng with
    | [] => Starved
    | r :: rng' => Ok (r, rng')
    end.

Declare Scope snake_scope.
Delimit Scope snake_scope with snake.
Notation "x <- m ;; k" := (bind m (fun x => k))
  (at level 61, m at next level, right associativity) : snake_scope.
Notation "x <~ r ;; k" := (rbind r (fun x => k))
  (at level 61, r at next level, right associativity) : snake_scope.
Local Open Scope snake_scope.

(** ** Cells and Python's list primitives *)

Abbreviation Cell := (Z * Z)%type.

(** Tuple equality [a == b]. *)
Definition cell_eqb (a b : Cell) : bool :=
  (fst a =? fst b) && (snd a =? snd b).

(** Membership [c in l]. *)
Definition cell_in (c : Cell) (l : list Cell) : bool :=
  existsb (cell_eqb c) l.

(** [l[-1]]: the last element, [IndexError] on the empty list. *)
Fixpoint list_last (l : list Cell) : result Cell :=
  match l with
  | [] => Raise IndexError
  | [c] => Ok c
  | _ :: l' => list_last l'
  end.

(** [l.pop()]: the list without its last element, [IndexError] on the
    empty list. *)
Definition list_pop (l : list Cell) : result (list Cell) :=
  match l with
  | [] => Raise IndexError
  | _ :: _ => Ok (removelast l)
  end.

(** [a // b]. *)
Definition floordiv (a b : Z) : result Z :=
  if b =? 0 then Raise ZeroDivisionError else Ok (a / b).

(** [random.randint(a, b)]: an integer of [[a, b]], [ValueError] on an
    empty range.  Every raw draw gives a value of the range and every value
    of the range comes from some raw draw. *)
Definition randint (a b : Z) : M Z :=
  if b <? a then throw ValueError
  else r <- next_draw ;; ret (a + r mod (b - a + 1)).

(** ** class Snake (main.py, lines 22-59) *)

Module Snake.

Record t : Type := mk {
  body : list Cell;
  direction : Z * Z;
  size : Z
}.

(** [__init__] *)
Definition init : t :=
  mk [(WIDTH / 2, HEIGHT / 2)] (0, -1) 20.

(** [head]: [self.body[0]]. *)
Definition head (s : t) : result Cell :=
  match body s with
  | [] => Raise IndexError
  | c :: _ => Ok c
  end.

(** [move]: insert the new head at index 0, then pop the last element. *)
Definition move (s : t) : result t :=
  h <~ head s ;;
  let '(head_x, head_y) := h in
  let '(dir_x, dir_y) := direction s in
  let new_head := (head_x + dir_x * size s, head_y + dir_y * size s) in
  let inserted := new_head :: body s in
  popped <~ list_pop inserted ;;
  Ok (mk popped (direction s) (size s)).

(** [change_direction] *)
Definition change_direction (s : t) (new_direction : Z * Z) : t :=
  if negb (cell_eqb (fst new_direction * -1, snd new_direction * -1)
                    (direction s))
  then mk (body s) new_direction (size s)
  else s.

(** [is_self_collision]: [self.head() in self.body[1:]]. *)
Definition is_self_collision (s : t) : result bool :=
  h <~ head s ;;
  Ok (cell_in h (tl (body s))).

(** [is_wall_collision] *)
Definition is_wall_collision (s : t) : result bool :=
  h <~ head s ;;
  let '(head_x, head_y) := h in
  Ok ((head_x <? 0) || (head_x >=? WIDTH)
      || (head_y <? 0) || (head_y >=? HEIGHT)).

(** [grow]: [self.body.append(self.body[-1])]. *)
Definition grow (s : t) : result t :=
  tail <~ list_last (body s) ;;
  Ok (mk (body s ++ [tail]) (direction s) (size s)).

(** [draw]: the calls of [pygame.draw.rect], one per segment, in body
    order. *)
Definition draw (s : t) : list DrawCmd :=
  map (fun segment =>
         (GREEN, mkRect (fst segment + 1) (snd segment + 1)
                        (size s - 2) (size s - 2)))
      (body s).

End Snake.

(** ** class Food (main.py, lines 70-86) *)

Module Food.

Record t : Type := mk {
  position : Cell;
  size : Z
}.

(** [__init__] *)
Definition init : t := mk (0, 0) 20.

(** The [while True] loop of [reset_position].  One round draws twice,
    assigns [self.position] and leaves the loop when the cell is not in
    the snake's body.  [fuel] bounds the number of rounds. *)
Fixpoint reset_loop (fuel : nat) (f : t) (snake : Snake.t) : M t :=
  match fuel with
  | O => fun _ => Starved
  | S fuel' =>
      bound_x <- lift (floordiv (WIDTH - size f) (size f)) ;;
      x <- randint 0 bound_x ;;
      bound_y <- lift (floordiv (HEIGHT - size f) (size f)) ;;
      y <- randint 0 bound_y ;;
      let f' := mk (x * size f, y * size f) (size f) in
      if negb (cell_in (position f') (Snake.body snake))
      then ret f'
      else reset_loop fuel' f' snake
  end.

(** [reset_position].  A round that does not raise consumes two draws, so
    with one more round than there are draws the bound on rounds is never
    what stops the loop: it stops by leaving, by raising, or by asking for
    a draw that is not there. *)
Definition reset_position (f : t) (snake : Snake.t) : M t :=
  fun rng => reset_loop (S (length rng)) f snake rng.

(** [draw]: one call of [pygame.draw.rect]; its rectangle is the position
    unpacked, followed by [self.size] twice. *)
Definition draw (f : t) : list DrawCmd :=
  [(RED, mkRect (fst (position f)) (snd (position f)) (size f) (size f))].

End Food.

(** ** main (main.py, lines 94-164) *)

Inductive Key : Type := K_UP | K_DOWN | K_LEFT | K_RIGHT | K_r | K_other.

Inductive Event : Type :=
| QUIT
| KEYDOWN (key : Key)
| OTHER.

(** The locals of [main] that the loop reads and writes. *)
Record Game : Type := mkGame {
  snake : Snake.t;
  food : Food.t;
  score : Z;
  framerate : Z;
  game_over : bool;
  running : bool
}.

Definition with_snake (g : Game) (s : Snake.t) : Game :=
  mkGame s (food g) (score g) (framerate g) (game_over g) (running g).

(** Lines 104-110: the state before the first frame. *)
Definition setup : M Game :=
  let snake0 := Snake.init in
  let food0 := Food.init in
  food1 <- Food.reset_position food0 snake0 ;;
  ret (mkGame snake0 food1 0 INITIAL_FRAMERATE false true).

(** Lines 114-131: the body of [for event in pygame.event.get()]. *)
Definition handle_event (ev : Event) (g : Game) : M Game :=
  match ev with
  | QUIT =>
      ret (mkGame (snake g) (food g) (score g) (framerate g) (game_over g) false)
  | KEYDOWN K_UP => ret (with_snake g (Snake.change_direction (snake g) (0, -1)))
  | KEYDOWN K_DOWN => ret (with_snake g (Snake.change_direction (snake g) (0, 1)))
  | KEYDOWN K_LEFT => ret (with_snake g (Snake.change_direction (snake g) (-1, 0)))
  | KEYDOWN K_RIGHT => ret (with_snake g (Snake.change_direction (snake g) (1, 0)))
  | KEYDOWN K_r =>
      if game_over g then
        let snake0 := Snake.init in
        let food0 := Food.init in
        food1 <- Food.reset_position food0 snake0 ;;
        ret (mkGame snake0 food1 0 INITIAL_FRAMERATE false (running g))
      else ret g
  | KEYDOWN K_other => ret g
  | OTHER => ret g
  end.

(** Lines 113-131: the event queue is drained in order. *)
Fixpoint process_events (evs : list Event) (g : Game) : M Game :=
  match evs with
  | [] => ret g
  | ev :: evs' => g' <- handle_event ev g ;; process_events evs' g'
  end.

(** Lines 133-143: the simulation tick.  The collision test sets
    [game_over]; the food test that follows is a separate [if]. *)
Definition tick (g : Game) : M Game :=
  if negb (game_over g) then
    snake1 <- lift (Snake.move (snake g)) ;;
    self_hit <- lift (Snake.is_self_collision snake1) ;;
    hit <- (if self_hit then ret true
            else lift (Snake.is_wall_collision snake1)) ;;
    let game_over1 := if hit then true else game_over g in
    h <- lift (Snake.head snake1) ;;
    if cell_eqb h (Food.position (food g)) then
      snake2 <- lift (Snake.grow snake1) ;;
      food2 <- Food.reset_position (food g) snake2 ;;
      ret (mkGame snake2 food2 (score g + 1)
                  (Z.min (framerate g + 1) MAX_FRAMERATE)
                  game_over1 (running g))
    else
      ret (mkGame snake1 (food g) (score g) (framerate g)
                  game_over1 (running g))
  else ret g.

(** One iteration of [while running]. *)
Definition frame (evs : list Event) (g : Game) : M Game :=
  g1 <- process_events evs g ;; tick g1.

(** [while running]: one list of events per frame; the loop is left when
    [running] is false at the top of an iteration. *)
Fixpoint main_loop (frames : list (list Event)) (g : Game) : M Game :=
  match frames with
  | [] => ret g
  | evs :: frames' =>
      if running g then g' <- frame evs g ;; main_loop frames' g'
      else ret g
  end.

Definition main (frames : list (list Event)) : M Game :=
  g0 <- setup ;; main_loop frames g0.

(** The states of [main] seen after the setup and at the end of each
    complete frame, for all event queues and all draws. *)
Inductive reachable : Game -> Prop :=
| reach_setup rng g rng' :
    setup rng = Ok (g, rng') -> reachable g
| reach_frame g evs rng g' rng' :
    reachable g -> running g = true ->
    frame evs g rng = Ok (g', rng') -> reachable g'.

(** ** Predicates of the specification *)

(** The four headings of section 3 of the specification. *)
Definition unit_vectors : list (Z * Z) := [(0, -1); (0, 1); (-1, 0); (1, 0)].

(** The exact negation of a heading. *)
Definition negation (d : Z * Z) : Z * Z := (- fst d, - snd d).

(** Both coordinates are multiples of the segment size. *)
Definition aligned (c : Cell) : Prop := (20 | fst c) /\ (20 | snd c).

(** A grid cell of the arena: aligned, x in [0, 780], y in [0, 580]. *)
Definition in_arena (c : Cell) : Prop :=
  aligned c /\ 0 <= fst c <= 780 /\ 0 <= snd c <= 580.

(** The cells that successive rounds of [Food.reset_position] sample from
    the draws, for a food of size 20. *)
Fixpoint samples (rng : list Z) : list Cell :=
  match rng with
  | rx :: ry :: rng' => (rx mod 40 * 20, ry mod 30 * 20) :: samples rng'
  | _ => []
  end.

(** The test of [Snake.is_wall_collision] on a head cell. *)
Definition outside_arena (c : Cell) : bool :=
  (fst c <? 0) || (fst c >=? WIDTH) || (snd c <? 0) || (snd c >=? HEIGHT).

(** The body length as a Python [int]. *)
Definition body_length (g : Game) : Z :=
  Z.of_nat (length (Snake.body (snake g))).

(** Snake and food lie on the grid of 20-pixel cells. *)
Definition on_grid (g : Game) : Prop :=
  Forall aligned (Snake.body (snake g)) /\ in_arena (Food.position (food g)).

(** What holds of the locals of [main] between frames. *)
Record game_inv (g : Game) : Prop := mk_game_inv {
  inv_body : Snake.body (snake g) <> [];
  inv_snake_size : Snake.size (snake g) = 20;
  inv_food_size : Food.size (food g) = 20;
  inv_aligned : Forall aligned (Snake.body (snake g));
  inv_food_arena : in_arena (Food.position (food g));
  inv_food_off : ~ In (Food.position (food g)) (Snake.body (snake g));
  inv_length : Z.of_nat (length (Snake.body (snake g))) = score g + 1;
  inv_rate : INITIAL_FRAMERATE <= framerate g <= MAX_FRAMERATE
}.

(** The rectangles drawn in a frame (main.py, lines 147-148): the snake
    first, then the food. *)
Definition draw_entities (g : Game) : list DrawCmd :=
  Snake.draw (snake g) ++ Food.draw (food g).

(** A pixel is painted by a drawing command. *)
Definition covers (r : Rect) (px py : Z) : Prop :=
  left r <= px < left r + width r /\ top r <= py < top r + height r.

(** A pixel of the [WIDTH] x [HEIGHT] surface. *)
Definition on_surface (px py : Z) : Prop :=
  0 <= px < WIDTH /\ 0 <= py < HEIGHT.

(** The direction that the handler passes to [change_direction] for a key. *)
Definition key_direction (k : Key) : option (Z * Z) :=
  match k with
  | K_UP => Some (0, -1)
  | K_DOWN => Some (0, 1)
  | K_LEFT => Some (-1, 0)
  | K_RIGHT => Some (1, 0)
  | K_r | K_other => None
  end.

(** The grid cells of the arena, column by column. *)
Definition arena_cells : list Cell :=
  flat_map (fun i => map (fun j => (Z.of_nat i * 20, Z.of_nat j * 20)) (seq 0 30))
           (seq 0 40).

(** Further facts about the locals of [main] between frames. *)
Record play_inv (g : Game) : Prop := mk_play_inv {
  inv_direction : In (Snake.direction (snake g)) unit_vectors;
  inv_rate_score :
    framerate g = Z.min (INITIAL_FRAMERATE + score g) MAX_FRAMERATE;
  inv_tail_arena : Forall in_arena (tl (Snake.body (snake g)));
  inv_running_head :
    game_over g = false -> Forall in_arena (Snake.body (snake g));
  inv_over_collided :
    game_over g = true ->
    Snake.is_self_collision (snake g) = Ok true \/
    Snake.is_wall_collision (snake g) = Ok true
}.

(** The locals with [running] cleared, as the [QUIT] branch leaves them. *)
Definition stop_running (g : Game) : Game :=
  mkGame (snake g) (food g) (score g) (framerate g) (game_over g) false.

(** An event queue without its [QUIT] events. *)
Definition without_quit (evs : list Event) : list Event :=
  filter (fun ev => match ev with QUIT => false | _ => true end) evs.

(** A function applied to the locals that a computation returns. *)
Definition on_state (f : Game -> Game) (r : result (Game * list Z)) :
  result (Game * list Z) :=
  match r with
  | Ok (g, rng) => Ok (f g, rng)
  | Raise e => Raise e
  | Starved => Starved
  end.

(** Two states used in the runs below: the fresh snake arrived at the top
    row, and the snake that has just eaten its first food. *)
Definition top_row_game : Game :=
  mkGame (Snake.mk [(400, 0)] (0, -1) 20) (Food.mk (100, 140) 20)
         0 5 false true.

Definition first_meal_game : Game :=
  mkGame (Snake.mk [(400, 280); (400, 280)] (0, -1) 20) (Food.mk (60, 80) 20)
         1 6 false true.

Definition game_over_game : Game :=
  mkGame (Snake.mk [(400, -20)] (0, -1) 20) (Food.mk (100, 140) 20)
         0 5 true true.

(** The snake after its first meal with the next food straight ahead, and
    the state one tick later. *)
Definition second_meal_game : Game :=
  mkGame (Snake.mk [(400, 280); (400, 280)] (0, -1) 20) (Food.mk (400, 260) 20)
         1 6 false true.

Definition after_second_meal_game : Game :=
  mkGame (Snake.mk [(400, 260); (400, 280); (400, 280)] (0, -1) 20)
         (Food.mk (0, 0) 20) 2 7 false true.

(** The three-segment snake run into the top wall, and the game one frame
    after the restart key is pressed there. *)
Definition long_game_over_game : Game :=
  mkGame (Snake.mk [(400, -20); (400, 0); (400, 20)] (0, -1) 20)
         (Food.mk (0, 0) 20) 2 7 true true.

Definition restarted_game : Game :=
  mkGame (Snake.mk [(400, 280)] (0, -1) 20) (Food.mk (100, 140) 20)
         0 5 false true.

(** The snake after two meals, three segments long and heading up. *)
Definition three_long_game : Game :=
  mkGame (Snake.mk [(400, 240); (400, 260); (400, 280)] (0, -1) 20)
         (Food.mk (0, 0) 20) 2 7 false true.

(** ** Runs on concrete inputs *)

Example setup_run :
  setup [5; 7] = Ok (mkGame Snake.init (Food.mk (100, 140) 20) 0 5 false true, []).
Proof. reflexivity. Qed.

Example setup_rejects_center :
  setup [20; 15; 45; 31] =
  Ok (mkGame Snake.init (Food.mk (100, 20) 20) 0 5 false true, []).
Proof. reflexivity. Qed.

Example eat_run : main [[]] [20; 14; 3; 4] = Ok (first_meal_game, []).
Proof. vm_compute. reflexivity. Qed.

(** Fifteen frames without input take the fresh snake to the top row. *)
Example top_row_run : main (repeat [] 15) [5; 7] = Ok (top_row_game, []).
Proof. vm_compute. reflexivity. Qed.

(** Two meals in a row, then one more step. *)
Example three_long_run :
  main [[]; []; []] [20; 14; 20; 13; 0; 0] = Ok (three_long_game, []).
Proof. vm_compute. reflexivity. Qed.

(** The sixteenth frame runs into the wall. *)
Example wall_run : main (repeat [] 16) [5; 7] = Ok (game_over_game, []).
Proof. vm_compute. reflexivity. Qed.

(** The food test of [tick] is an [if] of its own, not an [else] of the
    collision test.  From locals that [main] never holds (food outside the
    arena) one tick both ends the game and eats. *)
Example tick_food_test_unguarded :
  tick (mkGame (Snake.mk [(0, 0)] (0, -1) 20) (Food.mk (0, -20) 20)
               0 5 false true) [1; 1] =
  Ok (mkGame (Snake.mk [(0, -20); (0, -20)] (0, -1) 20) (Food.mk (20, 20) 20)
             1 6 true true, []).
Proof. reflexivity. Qed.

(** ** Cells and lists *)

Lemma cell_eqb_eq (a b : Cell) : cell_eqb a b = true <-> a = b.
Proof.
  destruct a as [ax ay], b as [bx by_]. unfold cell_eqb. cbn [fst snd].
  rewrite andb_true_iff, !Z.eqb_eq. split.
  - intros [-> ->]. reflexivity.
  - intros E. injection E as -> ->. split; reflexivity.
Qed.

Lemma cell_eqb_refl (a : Cell) : cell_eqb a a = true.
Proof. apply cell_eqb_eq. reflexivity. Qed.

Lemma cell_eqb_neq (a b : Cell) : cell_eqb a b = false <-> a <> b.
Proof.
  rewrite <- not_true_iff_false, cell_eqb_eq. reflexivity.
Qed.

Lemma cell_in_In (c : Cell) (l : list Cell) : cell_in c l = true <-> In c l.
Proof.
  unfold cell_in. rewrite existsb_exists. split.
  - intros (x & Hx & E). apply cell_eqb_eq in E. subst x. exact Hx.
  - intros H. exists c. split; [exact H | apply cell_eqb_refl].
Qed.

Lemma cell_in_not_In (c : Cell) (l : list Cell) :
  cell_in c l = false <-> ~ In c l.
Proof.
  rewrite <- not_true_iff_false, cell_in_In. reflexivity.
Qed.

Lemma list_last_app (l : list Cell) (c : Cell) : list_last (l ++ [c]) = Ok c.
Proof.
  induction l as [|a l IH]; [reflexivity|].
  cbn [app list_last]. destruct (l ++ [c]) eqn:E.
  - destruct l; discriminate E.
  - exact IH.
Qed.

Lemma list_last_nonempty (l : list Cell) :
  l <> [] -> exists c, list_last l = Ok c /\ nth_error l (pred (length l)) = Some c.
Proof.
  induction l as [|a l IH]; [congruence|]. intros _.
  destruct l as [|b l].
  - exists a. split; reflexivity.
  - destruct IH as (c & Hc & Hn); [discriminate|].
    exists c. split; [exact Hc | exact Hn].
Qed.

Lemma removelast_length {A : Type} (l : list A) :
  length (removelast l) = pred (length l).
Proof.
  induction l as [|a l IH]; [reflexivity|].
  destruct l as [|b l]; [reflexivity|].
  change (removelast (a :: b :: l)) with (a :: removelast (b :: l)).
  cbn [length] in *. rewrite IH. reflexivity.
Qed.

Lemma removelast_nth_error {A : Type} (l : list A) (i : nat) :
  (S i < length l)%nat -> nth_error (removelast l) i = nth_error l i.
Proof.
  revert i. induction l as [|a l IH]; intros i Hi; [cbn in Hi; lia|].
  destruct l as [|b l]; [cbn in Hi; lia|].
  change (removelast (a :: b :: l)) with (a :: removelast (b :: l)).
  destruct i as [|i]; [reflexivity|].
  cbn [nth_error]. apply IH. cbn [length] in *. lia.
Qed.

Lemma removelast_incl {A : Type} (l : list A) (x : A) :
  In x (removelast l) -> In x l.
Proof.
  induction l as [|a l IH]; [intros []|].
  destruct l as [|b l]; [intros []|].
  change (removelast (a :: b :: l)) with (a :: removelast (b :: l)).
  intros [E | H]; [left; exact E | right; apply IH; exact H].
Qed.

(** ** Snake: move, grow, change_direction *)

Lemma move_cons (c : Cell) (rest : list Cell) (d : Z * Z) (sz : Z) :
  Snake.move (Snake.mk (c :: rest) d sz) =
  Ok (Snake.mk ((fst c + fst d * sz, snd c + snd d * sz) :: removelast (c :: rest))
               d sz).
Proof. destruct c, d. reflexivity. Qed.

Lemma move_empty (d : Z * Z) (sz : Z) :
  Snake.move (Snake.mk [] d sz) = Raise IndexError.
Proof. reflexivity. Qed.

Lemma grow_nonempty (s : Snake.t) :
  Snake.body s <> [] ->
  exists tail,
    list_last (Snake.body s) = Ok tail /\
    Snake.grow s =
    Ok (Snake.mk (Snake.body s ++ [tail]) (Snake.direction s) (Snake.size s)).
Proof.
  intros H. destruct (list_last_nonempty _ H) as (c & Hc & _).
  exists c. split; [exact Hc|]. unfold Snake.grow. rewrite Hc. reflexivity.
Qed.

(** C1.  On a snake with a non-empty body [move] returns; the body keeps
    its length, the new head is the old head plus the direction times the
    segment size (times 20 when the size is the 20 that [__init__] sets),
    and the segment at each later index is the segment that was one index
    earlier.  Direction and size are untouched. *)
Theorem move_translates_body (s : Snake.t) (H : Snake.body s <> []) :
  exists h s',
    Snake.head s = Ok h /\
    Snake.move s = Ok s' /\
    length (Snake.body s') = length (Snake.body s) /\
    Snake.head s' =
      Ok (fst h + fst (Snake.direction s) * Snake.size s,
          snd h + snd (Snake.direction s) * Snake.size s) /\
    (Snake.size s = 20 ->
     Snake.head s' =
       Ok (fst h + fst (Snake.direction s) * 20,
           snd h + snd (Snake.direction s) * 20)) /\
    (forall i, (S i < length (Snake.body s))%nat ->
       nth_error (Snake.body s') (S i) = nth_error (Snake.body s) i) /\
    Snake.direction s' = Snake.direction s /\
    Snake.size s' = Snake.size s.
Proof.
  destruct s as [b d sz]. cbn [Snake.body Snake.direction Snake.size] in *.
  destruct b as [|c rest]; [congruence|].
  eexists c, _. rewrite move_cons.
  cbn [Snake.body Snake.direction Snake.size Snake.head].
  repeat split; cbn [Snake.body Snake.head].
  - cbn [length]. rewrite removelast_length. reflexivity.
  - intros ->. reflexivity.
  - intros i Hi. cbn [nth_error]. apply removelast_nth_error. exact Hi.
Qed.

Lemma move_translates_body_witness :
  Snake.body (Snake.mk [(400, 300); (400, 320); (420, 320)] (0, -1) 20) <> [] /\
  exists h s',
    Snake.head (Snake.mk [(400, 300); (400, 320); (420, 320)] (0, -1) 20) = Ok h /\
    Snake.move (Snake.mk [(400, 300); (400, 320); (420, 320)] (0, -1) 20) = Ok s' /\
    Snake.body s' = [(400, 280); (400, 300); (400, 320)].
Proof.
  split; [discriminate|].
  destruct (move_translates_body
              (Snake.mk [(400, 300); (400, 320); (420, 320)] (0, -1) 20))
    as (h & s' & Hh & Hm & _); [discriminate|].
  exists h, s'. split; [exact Hh|]. split; [exact Hm|].
  cbv in Hm. injection Hm as <-. reflexivity.
Defined.

(** C6.  On a snake with a non-empty body [grow] returns and appends a
    copy of the last segment; the [move] that follows returns too, and the
    body is then one segment longer than before [grow]. *)
Theorem grow_then_move_length (s : Snake.t) (H : Snake.body s <> []) :
  exists tail s1 s2,
    list_last (Snake.body s) = Ok tail /\
    Snake.grow s = Ok s1 /\
    Snake.body s1 = Snake.body s ++ [tail] /\
    Snake.move s1 = Ok s2 /\
    length (Snake.body s2) = S (length (Snake.body s)).
Proof.
  destruct (grow_nonempty s H) as (tail & Hl & Hg).
  destruct s as [b d sz]. cbn [Snake.body Snake.direction Snake.size] in *.
  destruct b as [|c rest]; [congruence|].
  exists tail. eexists. eexists.
  split; [exact Hl|]. split; [exact Hg|].
  split; [reflexivity|].
  cbn [app]. rewrite move_cons. split; [reflexivity|].
  cbn [Snake.body]. change (length (?x :: ?l)) with (S (length l)) at 1.
  rewrite removelast_length.
  cbn [length]. rewrite length_app. cbn [length]. lia.
Qed.

Lemma grow_then_move_length_witness :
  Snake.body Snake.init <> [] /\
  exists tail s1 s2,
    list_last (Snake.body Snake.init) = Ok tail /\
    Snake.grow Snake.init = Ok s1 /\
    Snake.body s1 = Snake.body Snake.init ++ [tail] /\
    Snake.move s1 = Ok s2 /\
    length (Snake.body s2) = S (length (Snake.body Snake.init)).
Proof.
  split; [discriminate|].
  apply (grow_then_move_length Snake.init). discriminate.
Defined.

Lemma change_direction_cases (s : Snake.t) (d : Z * Z) :
  (d = negation (Snake.direction s) /\ Snake.change_direction s d = s) \/
  (d <> negation (Snake.direction s) /\
   Snake.change_direction s d = Snake.mk (Snake.body s) d (Snake.size s)).
Proof.
  unfold Snake.change_direction, negation.
  destruct (cell_eqb (fst d * -1, snd d * -1) (Snake.direction s)) eqn:E;
    cbn [negb].
  - left. apply cell_eqb_eq in E. rewrite <- E. cbn [fst snd].
    split; [|reflexivity]. destruct d as [dx dy]. cbn [fst snd].
    f_equal; lia.
  - right. split; [|reflexivity]. apply cell_eqb_neq in E.
    intros ->. apply E. destruct (Snake.direction s) as [cx cy].
    cbn [fst snd]. f_equal; lia.
Qed.

(** C5 as stated fails: on a fresh snake, heading up, the key for up
    leaves the direction unchanged although up is not the negation of the
    current direction. *)
Lemma change_direction_noop_iff_counterexample :
  In (0, -1) unit_vectors /\
  ~ (Snake.direction (Snake.change_direction Snake.init (0, -1)) =
       Snake.direction Snake.init
     <-> (0, -1) = negation (Snake.direction Snake.init)).
Proof.
  split; [left; reflexivity|].
  intros [Hnoop _]. specialize (Hnoop eq_refl). discriminate Hnoop.
Qed.

(** C5, amended.  [change_direction d] is ignored (the snake is returned
    as it was) exactly when [d] is the exact negation of the current
    direction; otherwise the direction becomes [d] and nothing else
    changes.  The direction is therefore left unchanged if and only if [d]
    is the negation of the current direction or is the current direction
    itself.  This holds for every [d], the four unit vectors among them. *)
Theorem change_direction_spec (s : Snake.t) (d : Z * Z) :
  (d = negation (Snake.direction s) -> Snake.change_direction s d = s) /\
  (d <> negation (Snake.direction s) ->
   Snake.change_direction s d = Snake.mk (Snake.body s) d (Snake.size s)) /\
  (Snake.direction (Snake.change_direction s d) = Snake.direction s
   <-> d = negation (Snake.direction s) \/ d = Snake.direction s).
Proof.
  destruct (change_direction_cases s d) as [[E ->] | [N ->]].
  - split; [reflexivity|]. split; [congruence|].
    split; [intros _; left; exact E | reflexivity].
  - split; [congruence|]. split; [reflexivity|].
    cbn [Snake.direction]. split.
    + intros ->. right. reflexivity.
    + intros [E | E]; [contradiction | exact E].
Qed.

(** C8 as stated fails: on a fresh snake, heading up, pressing down twice
    leaves the direction up; it does not become down. *)
Lemma change_direction_twice_counterexample :
  In (0, 1) unit_vectors /\
  Snake.direction
    (Snake.change_direction (Snake.change_direction Snake.init (0, 1)) (0, 1))
  <> (0, 1).
Proof.
  split; [right; left; reflexivity|]. discriminate.
Qed.

(** C8, amended.  Applying [change_direction d] twice in a row is the same
    as applying it once.  When [d] is not the exact negation of the
    direction held before the first call, the direction is [d] after both
    calls; when it is, both calls are ignored and the snake is as it was. *)
Theorem change_direction_twice (s : Snake.t) (d : Z * Z) :
  Snake.change_direction (Snake.change_direction s d) d =
    Snake.change_direction s d /\
  (d <> negation (Snake.direction s) ->
   Snake.direction (Snake.change_direction (Snake.change_direction s d) d) = d) /\
  (d = negation (Snake.direction s) ->
   Snake.change_direction (Snake.change_direction s d) d = s).
Proof.
  assert (Hidem : Snake.change_direction (Snake.change_direction s d) d =
                  Snake.change_direction s d).
  { destruct (change_direction_cases s d) as [[E Hs] | [N Hs]].
    - rewrite Hs. exact Hs.
    - rewrite Hs.
      destruct (change_direction_cases (Snake.mk (Snake.body s) d (Snake.size s)) d)
        as [[_ ->] | [_ ->]]; reflexivity. }
  split; [exact Hidem|]. rewrite Hidem.
  destruct (change_direction_cases s d) as [[E ->] | [N ->]].
  - split; [congruence | reflexivity].
  - split; [reflexivity | congruence].
Qed.

(** ** The monad *)

Lemma bind_lift_ok {A B : Type} (a : A) (k : A -> M B) (rng : list Z) :
  bind (lift (Ok a)) k rng = k a rng.
Proof. reflexivity. Qed.

Lemma bind_ok {A B : Type} (m : M A) (k : A -> M B) (rng rng' : list Z) (a : A) :
  m rng = Ok (a, rng') -> bind m k rng = k a rng'.
Proof. unfold bind. intros ->. reflexivity. Qed.

Lemma bind_inv {A B : Type} (m : M A) (k : A -> M B) (rng rng2 : list Z) (b : B) :
  bind m k rng = Ok (b, rng2) ->
  exists a rng1, m rng = Ok (a, rng1) /\ k a rng1 = Ok (b, rng2).
Proof.
  unfold bind. destruct (m rng) as [[a rng1]| |]; try discriminate.
  intros H. exists a, rng1. split; [reflexivity | exact H].
Qed.

Lemma lift_inv {A : Type} (r : result A) (rng rng' : list Z) (a : A) :
  lift r rng = Ok (a, rng') -> r = Ok a /\ rng' = rng.
Proof.
  destruct r; cbn; try discriminate. intros E. injection E as -> ->.
  split; reflexivity.
Qed.

Lemma ret_inv {A : Type} (a b : A) (rng rng' : list Z) :
  ret a rng = Ok (b, rng') -> b = a /\ rng' = rng.
Proof. unfold ret. intros E. injection E as -> ->. split; reflexivity. Qed.

Lemma randint_cons (a b r : Z) (rng : list Z) :
  a <= b -> randint a b (r :: rng) = Ok (a + r mod (b - a + 1), rng).
Proof.
  intros H. unfold randint. destruct (b <? a) eqn:E; [lia|]. reflexivity.
Qed.

(** [randint a b] yields a value of [[a, b]], and each value of [[a, b]]
    is yielded for some raw draw. *)
Lemma randint_range (a b r : Z) (rng : list Z) :
  a <= b ->
  exists v, randint a b (r :: rng) = Ok (v, rng) /\ a <= v <= b.
Proof.
  intros H. exists (a + r mod (b - a + 1)).
  split; [apply randint_cons; exact H|].
  pose proof (Z.mod_pos_bound r (b - a + 1) ltac:(lia)). lia.
Qed.

Lemma randint_onto (a b v : Z) (rng : list Z) :
  a <= v <= b -> randint a b ((v - a) :: rng) = Ok (v, rng).
Proof.
  intros H. rewrite randint_cons by lia.
  rewrite Z.mod_small by lia. f_equal. f_equal. lia.
Qed.

Lemma randint_empty_range (a b : Z) (rng : list Z) :
  b < a -> randint a b rng = Raise ValueError.
Proof.
  intros H. unfold randint. destruct (b <? a) eqn:E; [reflexivity | lia].
Qed.

Lemma randint_nil (a b : Z) : a <= b -> randint a b [] = Starved.
Proof.
  intros H. unfold randint. destruct (b <? a) eqn:E; [lia|]. reflexivity.
Qed.

(** ** Food: reset_position *)

Lemma reset_loop_round (fuel : nat) (f : Food.t) (s : Snake.t)
      (rx ry : Z) (rest : list Z) :
  Food.size f = 20 ->
  Food.reset_loop (S fuel) f s (rx :: ry :: rest) =
  if cell_in (rx mod 40 * 20, ry mod 30 * 20) (Snake.body s)
  then Food.reset_loop fuel (Food.mk (rx mod 40 * 20, ry mod 30 * 20) 20) s rest
  else Ok (Food.mk (rx mod 40 * 20, ry mod 30 * 20) 20, rest).
Proof.
  destruct f as [p sz]. cbn [Food.size]. intros ->.
  cbn [Food.reset_loop Food.size Food.position].
  change (floordiv (WIDTH - 20) 20) with (@Ok Z 39).
  change (floordiv (HEIGHT - 20) 20) with (@Ok Z 29).
  rewrite bind_lift_ok.
  rewrite (bind_ok _ _ _ _ _ (randint_cons 0 39 rx _ ltac:(lia))).
  rewrite bind_lift_ok.
  rewrite (bind_ok _ _ _ _ _ (randint_cons 0 29 ry _ ltac:(lia))).
  change (39 - 0 + 1) with 40. change (29 - 0 + 1) with 30.
  rewrite !Z.add_0_l.
  destruct (cell_in (rx mod 40 * 20, ry mod 30 * 20) (Snake.body s));
    reflexivity.
Qed.

Lemma reset_loop_short (fuel : nat) (f : Food.t) (s : Snake.t) (rng : list Z) :
  Food.size f = 20 -> (length rng < 2)%nat ->
  Food.reset_loop fuel f s rng = Starved.
Proof.
  destruct f as [p sz]. cbn [Food.size]. intros -> Hlen.
  destruct fuel as [|fuel]; [reflexivity|].
  cbn [Food.reset_loop Food.size Food.position].
  change (floordiv (WIDTH - 20) 20) with (@Ok Z 39).
  change (floordiv (HEIGHT - 20) 20) with (@Ok Z 29).
  rewrite bind_lift_ok.
  destruct rng as [|rx [|ry rest]]; [| |cbn [length] in Hlen; lia].
  - unfold bind at 1. rewrite randint_nil by lia. reflexivity.
  - rewrite (bind_ok _ _ _ _ _ (randint_cons 0 39 rx _ ltac:(lia))).
    rewrite bind_lift_ok.
    unfold bind at 1. rewrite randint_nil by lia. reflexivity.
Qed.

(** One round of the loop, written out on the results of its steps. *)
Lemma reset_loop_unfold (fuel : nat) (f : Food.t) (s : Snake.t) (rng : list Z) :
  Food.reset_loop (S fuel) f s rng =
  match floordiv (WIDTH - Food.size f) (Food.size f) with
  | Ok bx =>
      if bx <? 0 then Raise ValueError else
      match rng with
      | [] => Starved
      | rx :: rng1 =>
          match floordiv (HEIGHT - Food.size f) (Food.size f) with
          | Ok by_ =>
              if by_ <? 0 then Raise ValueError else
              match rng1 with
              | [] => Starved
              | ry :: rng2 =>
                  let f' := Food.mk ((0 + rx mod (bx - 0 + 1)) * Food.size f,
                                     (0 + ry mod (by_ - 0 + 1)) * Food.size f)
                                    (Food.size f) in
                  if cell_in (Food.position f') (Snake.body s)
                  then Food.reset_loop fuel f' s rng2
                  else Ok (f', rng2)
              end
          | Raise e => Raise e
          | Starved => Starved
          end
      end
  | Raise e => Raise e
  | Starved => Starved
  end.
Proof.
  cbn [Food.reset_loop]. unfold randint.
  unfold bind, lift, rbind, throw, next_draw, ret.
  destruct (floordiv (WIDTH - Food.size f) (Food.size f)) as [bx| |];
    [|reflexivity|reflexivity].
  destruct (bx <? 0); [reflexivity|].
  destruct rng as [|rx rng1]; [reflexivity|].
  destruct (floordiv (HEIGHT - Food.size f) (Food.size f)) as [by_| |];
    [|reflexivity|reflexivity].
  destruct (by_ <? 0); [reflexivity|].
  destruct rng1 as [|ry rng2]; [reflexivity|].
  cbv zeta. cbn [Food.position].
  destruct (cell_in _ (Snake.body s)); reflexivity.
Qed.

(** The bound on rounds never decides the outcome of [reset_position]:
    any two bounds above the number of draws give the same result, for
    every food, sizes other than 20 included. *)
Lemma reset_loop_fuel_irrelevant (fuel : nat) :
  forall (fuel' : nat) (f : Food.t) (s : Snake.t) (rng : list Z),
  (length rng < fuel)%nat -> (length rng < fuel')%nat ->
  Food.reset_loop fuel f s rng = Food.reset_loop fuel' f s rng.
Proof.
  induction fuel as [|fuel IH]; intros fuel' f s rng Hlt Hlt'; [lia|].
  destruct fuel' as [|fuel']; [lia|].
  rewrite !reset_loop_unfold.
  destruct (floordiv (WIDTH - Food.size f) (Food.size f)) as [bx| |];
    [|reflexivity|reflexivity].
  destruct (bx <? 0); [reflexivity|].
  destruct rng as [|rx rng1]; [reflexivity|].
  destruct (floordiv (HEIGHT - Food.size f) (Food.size f)) as [by_| |];
    [|reflexivity|reflexivity].
  destruct (by_ <? 0); [reflexivity|].
  destruct rng1 as [|ry rng2]; [reflexivity|].
  cbv zeta. destruct (cell_in _ (Snake.body s)); [|reflexivity].
  apply IH; cbn [length] in *; lia.
Qed.

Lemma samples_in_arena (rng : list Z) (c : Cell) :
  In c (samples rng) -> in_arena c.
Proof.
  assert (Hgen : forall n rng, (length rng <= n)%nat ->
                   In c (samples rng) -> in_arena c).
  { induction n as [|n IH]; intros l Hlen Hin.
    - destruct l; [destruct Hin | cbn [length] in Hlen; lia].
    - destruct l as [|rx [|ry rest]]; try (destruct Hin).
      + subst c. unfold in_arena, aligned. cbn [fst snd].
        pose proof (Z.mod_pos_bound rx 40 ltac:(lia)).
        pose proof (Z.mod_pos_bound ry 30 ltac:(lia)).
        repeat split; try lia.
        * exists (rx mod 40). reflexivity.
        * exists (ry mod 30). reflexivity.
      + apply (IH rest); [cbn [length] in Hlen; lia | assumption]. }
  apply (Hgen (length rng)). lia.
Qed.

Lemma reset_loop_ok (fuel : nat) :
  forall (f : Food.t) (s : Snake.t) (rng : list Z) (f' : Food.t) (rng' : list Z),
  Food.size f = 20 ->
  Food.reset_loop fuel f s rng = Ok (f', rng') ->
  Food.size f' = 20 /\
  cell_in (Food.position f') (Snake.body s) = false /\
  In (Food.position f') (samples rng).
Proof.
  induction fuel as [|fuel IH]; intros f s rng f' rng' Hsz Hrun;
    [discriminate Hrun|].
  destruct rng as [|rx [|ry rest]];
    try (rewrite reset_loop_short in Hrun by (trivial; cbn [length]; lia);
         discriminate Hrun).
  rewrite reset_loop_round in Hrun by exact Hsz.
  destruct (cell_in (rx mod 40 * 20, ry mod 30 * 20) (Snake.body s)) eqn:E.
  - apply IH in Hrun; [|reflexivity].
    destruct Hrun as (H1 & H2 & H3).
    split; [exact H1|]. split; [exact H2|]. right. exact H3.
  - injection Hrun as <- <-. cbn [Food.size Food.position].
    split; [reflexivity|]. split; [exact E|]. left. reflexivity.
Qed.

Lemma reset_loop_never_raises (fuel : nat) :
  forall (f : Food.t) (s : Snake.t) (rng : list Z) (e : exn),
  Food.size f = 20 -> Food.reset_loop fuel f s rng <> Raise e.
Proof.
  induction fuel as [|fuel IH]; intros f s rng e Hsz; [discriminate|].
  destruct rng as [|rx [|ry rest]];
    try (rewrite reset_loop_short by (trivial; cbn [length]; lia); discriminate).
  rewrite reset_loop_round by exact Hsz.
  destruct (cell_in (rx mod 40 * 20, ry mod 30 * 20) (Snake.body s)).
  - apply IH. reflexivity.
  - discriminate.
Qed.

Lemma reset_loop_returns (fuel : nat) :
  forall (f : Food.t) (s : Snake.t) (rng : list Z),
  Food.size f = 20 -> (length rng < 2 * fuel)%nat ->
  (exists c, In c (samples rng) /\ cell_in c (Snake.body s) = false) ->
  exists f' rng', Food.reset_loop fuel f s rng = Ok (f', rng').
Proof.
  induction fuel as [|fuel IH]; intros f s rng Hsz Hfuel (c & Hin & Hfree);
    [lia|].
  destruct rng as [|rx [|ry rest]]; try (destruct Hin).
  - rewrite reset_loop_round by exact Hsz. subst c. rewrite Hfree.
    eexists. eexists. reflexivity.
  - rewrite reset_loop_round by exact Hsz.
    destruct (cell_in (rx mod 40 * 20, ry mod 30 * 20) (Snake.body s)).
    + apply IH; [reflexivity | cbn [length] in Hfuel; lia |].
      exists c. split; assumption.
    + eexists. eexists. reflexivity.
Qed.

Lemma reset_position_ok (f : Food.t) (s : Snake.t) (rng : list Z)
      (f' : Food.t) (rng' : list Z) :
  Food.size f = 20 ->
  Food.reset_position f s rng = Ok (f', rng') ->
  Food.size f' = 20 /\
  ~ In (Food.position f') (Snake.body s) /\
  in_arena (Food.position f').
Proof.
  intros Hsz Hrun. unfold Food.reset_position in Hrun.
  destruct (reset_loop_ok _ _ _ _ _ _ Hsz Hrun) as (H1 & H2 & H3).
  split; [exact H1|]. split.
  - apply cell_in_not_In. exact H2.
  - apply (samples_in_arena rng). exact H3.
Qed.

Lemma reset_position_returns (f : Food.t) (s : Snake.t) (rng : list Z) :
  Food.size f = 20 ->
  (exists c, In c (samples rng) /\ ~ In c (Snake.body s)) ->
  exists f' rng', Food.reset_position f s rng = Ok (f', rng').
Proof.
  intros Hsz (c & Hin & Hfree). unfold Food.reset_position.
  apply reset_loop_returns; [exact Hsz | cbn [length]; lia |].
  exists c. split; [exact Hin | apply cell_in_not_In; exact Hfree].
Qed.

Lemma reset_position_never_raises (f : Food.t) (s : Snake.t) (rng : list Z)
      (e : exn) :
  Food.size f = 20 -> Food.reset_position f s rng <> Raise e.
Proof. intros Hsz. apply reset_loop_never_raises. exact Hsz. Qed.

(** The equation of the [while True] loop: a round that samples an
    occupied cell is followed by the whole loop again on the draws left. *)
Lemma reset_position_loop (f : Food.t) (s : Snake.t) (rx ry : Z)
      (rest : list Z) :
  Food.size f = 20 ->
  Food.reset_position f s (rx :: ry :: rest) =
  if cell_in (rx mod 40 * 20, ry mod 30 * 20) (Snake.body s)
  then Food.reset_position (Food.mk (rx mod 40 * 20, ry mod 30 * 20) 20) s rest
  else Ok (Food.mk (rx mod 40 * 20, ry mod 30 * 20) 20, rest).
Proof.
  intros Hsz. unfold Food.reset_position.
  rewrite reset_loop_round by exact Hsz.
  destruct (cell_in (rx mod 40 * 20, ry mod 30 * 20) (Snake.body s));
    [|reflexivity].
  apply reset_loop_fuel_irrelevant; cbn [length]; lia.
Qed.

(** C3.  For a food of the size 20 that [__init__] sets, every call of
    [reset_position] that returns leaves a position that is not an element
    of the snake's body, whose x is a multiple of 20 in [0, 780] and whose
    y is a multiple of 20 in [0, 580].  The call never raises, and it
    returns whenever one of the cells sampled from the draws is free. *)
Theorem reset_position_off_snake_on_grid
        (f : Food.t) (s : Snake.t) (rng : list Z) (Hsz : Food.size f = 20) :
  (forall f' rng',
     Food.reset_position f s rng = Ok (f', rng') ->
     ~ In (Food.position f') (Snake.body s) /\
     (20 | fst (Food.position f')) /\ 0 <= fst (Food.position f') <= 780 /\
     (20 | snd (Food.position f')) /\ 0 <= snd (Food.position f') <= 580) /\
  (forall e, Food.reset_position f s rng <> Raise e) /\
  ((exists c, In c (samples rng) /\ ~ In c (Snake.body s)) ->
   exists f' rng', Food.reset_position f s rng = Ok (f', rng')).
Proof.
  split; [|split].
  - intros f' rng' Hrun.
    destruct (reset_position_ok _ _ _ _ _ Hsz Hrun)
      as (_ & Hoff & (Hx & Hy) & Hbx & Hby).
    repeat split; try assumption; lia.
  - intros e. apply reset_position_never_raises. exact Hsz.
  - apply reset_position_returns. exact Hsz.
Qed.

Lemma reset_position_off_snake_on_grid_witness :
  Food.size Food.init = 20 /\
  Food.reset_position Food.init Snake.init [20; 15; 45; 31] =
    Ok (Food.mk (100, 20) 20, []) /\
  ~ In (100, 20) (Snake.body Snake.init) /\
  (20 | 100) /\ 0 <= 100 <= 780 /\ (20 | 20) /\ 0 <= 20 <= 580.
Proof.
  split; [reflexivity|]. split; [reflexivity|].
  exact (proj1 (reset_position_off_snake_on_grid
                  Food.init Snake.init [20; 15; 45; 31] eq_refl)
               (Food.mk (100, 20) 20) [] eq_refl).
Defined.

(** ** The controller *)

Lemma collision_tests_cons (h : Cell) (l : list Cell) (d : Z * Z) (sz : Z) :
  Snake.is_self_collision (Snake.mk (h :: l) d sz) = Ok (cell_in h l) /\
  Snake.is_wall_collision (Snake.mk (h :: l) d sz) = Ok (outside_arena h) /\
  Snake.head (Snake.mk (h :: l) d sz) = Ok h.
Proof. destruct h. repeat split. Qed.

Ltac run_lift := rewrite bind_lift_ok; cbv beta.

(** The tick of a running game, with the snake's move carried out. *)
Lemma tick_running (g : Game) (c : Cell) (rest : list Cell) (rng : list Z) :
  game_over g = false ->
  Snake.body (snake g) = c :: rest ->
  let d := Snake.direction (snake g) in
  let sz := Snake.size (snake g) in
  let h := (fst c + fst d * sz, snd c + snd d * sz) in
  let snake1 := Snake.mk (h :: removelast (c :: rest)) d sz in
  let over := cell_in h (removelast (c :: rest)) || outside_arena h in
  Snake.move (snake g) = Ok snake1 /\
  tick g rng =
  if cell_eqb h (Food.position (food g)) then
    (snake2 <- lift (Snake.grow snake1) ;;
     food2 <- Food.reset_position (food g) snake2 ;;
     ret (mkGame snake2 food2 (score g + 1)
                 (Z.min (framerate g + 1) MAX_FRAMERATE) over (running g))) rng
  else Ok (mkGame snake1 (food g) (score g) (framerate g) over (running g), rng).
Proof.
  destruct g as [[b d sz] f sc fr go run].
  cbn [game_over snake Snake.body Snake.direction Snake.size food score
       framerate running].
  intros -> ->. cbv zeta. rewrite move_cons. split; [reflexivity|].
  unfold tick. cbn [game_over negb snake food score framerate running].
  rewrite move_cons. run_lift.
  destruct (collision_tests_cons
              (fst c + fst d * sz, snd c + snd d * sz)
              (removelast (c :: rest)) d sz) as (-> & -> & ->).
  run_lift.
  destruct (cell_in (fst c + fst d * sz, snd c + snd d * sz)
                    (removelast (c :: rest))).
  - cbn [orb]. unfold bind at 1, ret at 1. run_lift.
    destruct (cell_eqb (fst c + fst d * sz, snd c + snd d * sz)
                       (Food.position f)); reflexivity.
  - cbn [orb]. run_lift. run_lift.
    destruct (outside_arena (fst c + fst d * sz, snd c + snd d * sz));
      destruct (cell_eqb (fst c + fst d * sz, snd c + snd d * sz)
                         (Food.position f)); reflexivity.
Qed.

Lemma list_last_In (l : list Cell) (c : Cell) : list_last l = Ok c -> In c l.
Proof.
  intros H. destruct l as [|a l]; [discriminate H|].
  destruct (list_last_nonempty (a :: l)) as (c' & Hc & Hn); [discriminate|].
  rewrite H in Hc. injection Hc as <-. exact (nth_error_In _ _ Hn).
Qed.

Lemma change_direction_keeps (s : Snake.t) (d : Z * Z) :
  Snake.body (Snake.change_direction s d) = Snake.body s /\
  Snake.size (Snake.change_direction s d) = Snake.size s.
Proof.
  destruct (change_direction_cases s d) as [[_ ->] | [_ ->]];
    split; reflexivity.
Qed.

Lemma aligned_translate (c d : Z * Z) :
  aligned c -> aligned (fst c + fst d * 20, snd c + snd d * 20).
Proof.
  intros [[kx Hx] [ky Hy]]. split; cbn [fst snd].
  - exists (kx + fst d). lia.
  - exists (ky + snd d). lia.
Qed.

Lemma fresh_game_inv (f : Food.t) (run : bool) :
  Food.size f = 20 ->
  in_arena (Food.position f) ->
  ~ In (Food.position f) (Snake.body Snake.init) ->
  game_inv (mkGame Snake.init f 0 INITIAL_FRAMERATE false run).
Proof.
  intros Hsz Harena Hoff. constructor;
    cbn [snake food score framerate Snake.init Snake.body Snake.size];
    try assumption; try reflexivity.
  - discriminate.
  - constructor; [|constructor]. split; cbn [fst snd].
    + exists 20. reflexivity.
    + exists 15. reflexivity.
  - unfold INITIAL_FRAMERATE, MAX_FRAMERATE. lia.
Qed.

Lemma with_snake_inv (g : Game) (s : Snake.t) :
  Snake.body s = Snake.body (snake g) ->
  Snake.size s = Snake.size (snake g) ->
  game_inv g -> game_inv (with_snake g s).
Proof.
  intros Hb Hs [I1 I2 I3 I4 I5 I6 I7 I8].
  constructor; cbn [with_snake snake food score framerate];
    rewrite ?Hb, ?Hs; assumption.
Qed.

Lemma setup_inv (rng : list Z) (g : Game) (rng' : list Z) :
  setup rng = Ok (g, rng') -> game_inv g.
Proof.
  unfold setup. cbv zeta. intros H.
  apply bind_inv in H. destruct H as (f1 & rng1 & Hreset & Hret).
  apply ret_inv in Hret. destruct Hret as [-> _].
  destruct (reset_position_ok Food.init Snake.init _ _ _ eq_refl Hreset)
    as (Hsz & Hoff & Har).
  apply fresh_game_inv; assumption.
Qed.

Lemma handle_event_inv (ev : Event) (g : Game) (rng : list Z)
      (g' : Game) (rng' : list Z) :
  game_inv g -> handle_event ev g rng = Ok (g', rng') -> game_inv g'.
Proof.
  intros Hinv H.
  destruct ev as [|[| | | | |]|]; cbn [handle_event] in H;
    try (apply ret_inv in H; destruct H as [-> _];
         first [ exact Hinv
               | apply with_snake_inv;
                 [apply change_direction_keeps
                 |apply change_direction_keeps
                 |exact Hinv] ]).
  - apply ret_inv in H. destruct H as [-> _].
    destruct Hinv as [I1 I2 I3 I4 I5 I6 I7 I8].
    constructor; cbn [snake food score framerate]; assumption.
  - destruct (game_over g).
    + cbv zeta in H. apply bind_inv in H.
      destruct H as (f1 & rng1 & Hreset & Hret).
      apply ret_inv in Hret. destruct Hret as [-> _].
      destruct (reset_position_ok Food.init Snake.init _ _ _ eq_refl Hreset)
        as (Hsz & Hoff & Har).
      apply fresh_game_inv; assumption.
    + apply ret_inv in H. destruct H as [-> _]. exact Hinv.
Qed.

Lemma process_events_inv (evs : list Event) :
  forall (g : Game) (rng : list Z) (g' : Game) (rng' : list Z),
  game_inv g -> process_events evs g rng = Ok (g', rng') -> game_inv g'.
Proof.
  induction evs as [|ev evs IH]; intros g rng g' rng' Hinv H;
    cbn [process_events] in H.
  - apply ret_inv in H. destruct H as [-> _]. exact Hinv.
  - apply bind_inv in H. destruct H as (g1 & rng1 & Hev & Hrest).
    apply (IH g1 rng1 g' rng'); [|exact Hrest].
    exact (handle_event_inv _ _ _ _ _ Hinv Hev).
Qed.

Lemma tick_inv (g : Game) (rng : list Z) (g' : Game) (rng' : list Z) :
  game_inv g -> tick g rng = Ok (g', rng') -> game_inv g'.
Proof.
  intros Hinv H. destruct (game_over g) eqn:Hover.
  - unfold tick in H. rewrite Hover in H. cbn [negb] in H.
    apply ret_inv in H. destruct H as [-> _]. exact Hinv.
  - destruct Hinv as [I1 I2 I3 I4 I5 I6 I7 I8].
    destruct (Snake.body (snake g)) as [|c rest] eqn:Hbody; [congruence|].
    destruct (tick_running g c rest rng Hover Hbody) as [_ Htick].
    cbv zeta in Htick. rewrite Htick in H. clear Htick. rewrite I2 in H.
    set (h := (fst c + fst (Snake.direction (snake g)) * 20,
               snd c + snd (Snake.direction (snake g)) * 20)) in *.
    assert (Hh : aligned h).
    { apply aligned_translate. inversion I4. assumption. }
    assert (Hrest : Forall aligned (removelast (c :: rest))).
    { apply Forall_forall. intros x Hx. apply removelast_incl in Hx.
      rewrite Forall_forall in I4. apply I4. exact Hx. }
    assert (Hlen : Z.of_nat (length (h :: removelast (c :: rest))) = score g + 1).
    { rewrite <- I7. cbn [length]. rewrite removelast_length.
      cbn [length]. reflexivity. }
    assert (Hsub : forall x, In x (removelast (c :: rest)) -> In x (c :: rest)).
    { intros x. apply removelast_incl. }
    remember (removelast (c :: rest)) as rl eqn:Hrl. clear Hrl.
    destruct (cell_eqb h (Food.position (food g))) eqn:Heat.
    + apply bind_inv in H. destruct H as (snake2 & rng1 & Hgrow & H).
      apply lift_inv in Hgrow. destruct Hgrow as [Hgrow ->].
      apply bind_inv in H. destruct H as (food2 & rng2 & Hreset & H).
      apply ret_inv in H. destruct H as [-> _].
      destruct (grow_nonempty
                  (Snake.mk (h :: rl) (Snake.direction (snake g)) 20))
        as (tail & Htail & Hg); [discriminate|].
      rewrite Hg in Hgrow. injection Hgrow as <-.
      destruct (reset_position_ok _ _ _ _ _ I3 Hreset) as (Hsz & Hoff & Har).
      cbn [Snake.body] in Htail.
      constructor; cbn [snake food score framerate Snake.body Snake.size];
        try assumption; try reflexivity.
      * discriminate.
      * change (Forall aligned ((h :: rl) ++ [tail])).
        apply Forall_app. split; [constructor; assumption|].
        constructor; [|constructor].
        apply list_last_In in Htail.
        destruct Htail as [<- | Hin]; [exact Hh|].
        rewrite Forall_forall in Hrest. apply Hrest. exact Hin.
      * change (Z.of_nat (length ((h :: rl) ++ [tail])) = score g + 1 + 1).
        rewrite length_app. cbn [length] in *. lia.
      * unfold INITIAL_FRAMERATE, MAX_FRAMERATE in *. lia.
    + injection H as <- _.
      constructor; cbn [snake food score framerate Snake.body Snake.size];
        try assumption; try reflexivity.
      * discriminate.
      * constructor; assumption.
      * intros [E | Hin].
        -- apply cell_eqb_neq in Heat. apply Heat. exact E.
        -- apply I6. apply Hsub. exact Hin.
Qed.

Lemma frame_inv (evs : list Event) (g : Game) (rng : list Z)
      (g' : Game) (rng' : list Z) :
  game_inv g -> frame evs g rng = Ok (g', rng') -> game_inv g'.
Proof.
  intros Hinv H. unfold frame in H. apply bind_inv in H.
  destruct H as (g1 & rng1 & Hev & Htick).
  apply (tick_inv g1 rng1 g' rng'); [|exact Htick].
  exact (process_events_inv _ _ _ _ _ Hinv Hev).
Qed.

Lemma reachable_inv (g : Game) : reachable g -> game_inv g.
Proof.
  induction 1 as [rng g rng' Hsetup | g evs rng g' rng' _ IH _ Hframe].
  - exact (setup_inv _ _ _ Hsetup).
  - exact (frame_inv _ _ _ _ _ IH Hframe).
Qed.

(** Every state that [main] returns for a list of frames is reachable. *)
Lemma main_loop_reachable (frames : list (list Event)) :
  forall (g : Game) (rng : list Z) (g' : Game) (rng' : list Z),
  reachable g -> main_loop frames g rng = Ok (g', rng') -> reachable g'.
Proof.
  induction frames as [|evs frames IH]; intros g rng g' rng' Hreach H;
    cbn [main_loop] in H.
  - apply ret_inv in H. destruct H as [-> _]. exact Hreach.
  - destruct (running g) eqn:Hrun.
    + apply bind_inv in H. destruct H as (g1 & rng1 & Hframe & Hrest).
      apply (IH g1 rng1 g' rng'); [|exact Hrest].
      exact (reach_frame _ _ _ _ _ Hreach Hrun Hframe).
    + apply ret_inv in H. destruct H as [-> _]. exact Hreach.
Qed.

Lemma main_reachable (frames : list (list Event)) (rng : list Z)
      (g : Game) (rng' : list Z) :
  main frames rng = Ok (g, rng') -> reachable g.
Proof.
  unfold main. intros H. apply bind_inv in H.
  destruct H as (g0 & rng0 & Hsetup & Hloop).
  apply (main_loop_reachable frames g0 rng0 g rng'); [|exact Hloop].
  exact (reach_setup _ _ _ Hsetup).
Qed.

(** From a reachable state a frame never raises: it returns, or the food
    placement is still sampling when the draws run out. *)
Lemma bind_never_raises {A B : Type} (m : M A) (k : A -> M B) (rng : list Z) :
  (forall e, m rng <> Raise e) ->
  (forall a rng1, m rng = Ok (a, rng1) -> forall e, k a rng1 <> Raise e) ->
  forall e, bind m k rng <> Raise e.
Proof.
  intros Hm Hk e. unfold bind.
  destruct (m rng) as [[a rng1]|e'|] eqn:E.
  - apply (Hk a rng1 eq_refl).
  - exfalso. exact (Hm e' eq_refl).
  - discriminate.
Qed.

Lemma handle_event_never_raises (ev : Event) (g : Game) (rng : list Z)
      (e : exn) :
  handle_event ev g rng <> Raise e.
Proof.
  destruct ev as [|[| | | | |]|]; cbn [handle_event]; try discriminate.
  destruct (game_over g); [|discriminate]. cbv zeta.
  apply bind_never_raises.
  - intros e'. apply reset_position_never_raises. reflexivity.
  - intros f1 rng1 _ e'. discriminate.
Qed.

Lemma process_events_never_raises (evs : list Event) :
  forall (g : Game) (rng : list Z) (e : exn),
  process_events evs g rng <> Raise e.
Proof.
  induction evs as [|ev evs IH]; intros g rng e; cbn [process_events];
    [discriminate|].
  apply bind_never_raises.
  - intros e'. apply handle_event_never_raises.
  - intros g1 rng1 _ e'. apply IH.
Qed.

Lemma tick_never_raises (g : Game) (rng : list Z) (e : exn) :
  game_inv g -> tick g rng <> Raise e.
Proof.
  intros [I1 I2 I3 I4 I5 I6 I7 I8]. destruct (game_over g) eqn:Hover.
  - unfold tick. rewrite Hover. discriminate.
  - destruct (Snake.body (snake g)) as [|c rest] eqn:Hbody; [congruence|].
    destruct (tick_running g c rest rng Hover Hbody) as [_ Htick].
    cbv zeta in Htick. rewrite Htick. clear Htick.
    remember (removelast (c :: rest)) as rl eqn:Hrl. clear Hrl.
    match goal with
    | |- (if cell_eqb ?h _ then _ else _) <> _ => set (hd := h)
    end.
    destruct (cell_eqb hd (Food.position (food g))); [|discriminate].
    destruct (grow_nonempty
                (Snake.mk (hd :: rl) (Snake.direction (snake g))
                          (Snake.size (snake g))))
      as (tail & _ & Hg); [discriminate|].
    rewrite Hg. run_lift.
    apply bind_never_raises.
    + intros e'. apply reset_position_never_raises. exact I3.
    + intros f2 rng2 _ e'. discriminate.
Qed.

Lemma frame_never_raises (evs : list Event) (g : Game) (rng : list Z)
      (e : exn) :
  reachable g -> frame evs g rng <> Raise e.
Proof.
  intros Hreach. unfold frame. apply bind_never_raises.
  - intros e'. apply process_events_never_raises.
  - intros g1 rng1 Hevs e'. apply tick_never_raises.
    exact (process_events_inv _ _ _ _ _ (reachable_inv g Hreach) Hevs).
Qed.

(** ** The claims about the game loop *)

(** C2.  Take a state of [main] at the end of a frame (or after the
    setup), drain any event queue, and let the phase then be Running.  If,
    after [snake.move()], [is_self_collision()] or [is_wall_collision()]
    is true, the tick returns with [game_over] set and with score,
    framerate, food and the moved snake as they were after the move: the
    food test is false, no draw is consumed, and the body length is the one
    before the move. *)
Theorem collision_tick_ends_game
        (g : Game) (evs : list Event) (rng : list Z)
        (g1 : Game) (rng1 : list Z) (snake1 : Snake.t)
        (Hreach : reachable g)
        (Hevs : process_events evs g rng = Ok (g1, rng1))
        (Hphase : game_over g1 = false)
        (Hmove : Snake.move (snake g1) = Ok snake1)
        (Hhit : Snake.is_self_collision snake1 = Ok true \/
                Snake.is_wall_collision snake1 = Ok true) :
  tick g1 rng1 =
    Ok (mkGame snake1 (food g1) (score g1) (framerate g1) true (running g1),
        rng1) /\
  frame evs g rng =
    Ok (mkGame snake1 (food g1) (score g1) (framerate g1) true (running g1),
        rng1) /\
  length (Snake.body snake1) = length (Snake.body (snake g1)).
Proof.
  assert (Hinv : game_inv g1).
  { exact (process_events_inv _ _ _ _ _ (reachable_inv g Hreach) Hevs). }
  destruct Hinv as [I1 I2 I3 I4 I5 I6 I7 I8].
  destruct (Snake.body (snake g1)) as [|c rest] eqn:Hbody; [congruence|].
  destruct (tick_running g1 c rest rng1 Hphase Hbody) as [Hmove' Htick].
  cbv zeta in Hmove', Htick.
  assert (Hsub : forall x, In x (removelast (c :: rest)) -> In x (c :: rest)).
  { intros x. apply removelast_incl. }
  assert (Hlen : S (length (removelast (c :: rest))) = length (c :: rest)).
  { rewrite removelast_length. reflexivity. }
  remember (removelast (c :: rest)) as rl eqn:Hrl. clear Hrl.
  set (h := (fst c + fst (Snake.direction (snake g1)) * Snake.size (snake g1),
             snd c + snd (Snake.direction (snake g1)) * Snake.size (snake g1)))
    in *.
  rewrite Hmove' in Hmove. injection Hmove as <-.
  destruct (collision_tests_cons h rl
              (Snake.direction (snake g1)) (Snake.size (snake g1)))
    as (Hself & Hwall & _).
  rewrite Hself, Hwall in Hhit.
  assert (Hfood : cell_eqb h (Food.position (food g1)) = false).
  { apply cell_eqb_neq. intros E. destruct Hhit as [Hs | Hw].
    - injection Hs as Hs. apply cell_in_In in Hs. apply I6.
      rewrite <- E. apply Hsub. exact Hs.
    - injection Hw as Hw. rewrite E in Hw.
      destruct I5 as (_ & Hx & Hy). unfold outside_arena, WIDTH, HEIGHT in Hw.
      rewrite !orb_true_iff in Hw. lia. }
  assert (Hover : cell_in h rl || outside_arena h = true).
  { destruct Hhit as [Hs | Hw].
    - injection Hs as ->. reflexivity.
    - injection Hw as ->. apply orb_true_r. }
  rewrite Hfood, Hover in Htick.
  split; [exact Htick|]. split.
  - unfold frame. rewrite (bind_ok _ _ _ _ _ Hevs). exact Htick.
  - cbn [Snake.body length]. exact Hlen.
Qed.

Lemma collision_tick_ends_game_witness :
  reachable top_row_game /\
  process_events [KEYDOWN K_UP] top_row_game [] = Ok (top_row_game, []) /\
  game_over top_row_game = false /\
  Snake.move (snake top_row_game) = Ok (Snake.mk [(400, -20)] (0, -1) 20) /\
  Snake.is_wall_collision (Snake.mk [(400, -20)] (0, -1) 20) = Ok true /\
  tick top_row_game [] =
    Ok (mkGame (Snake.mk [(400, -20)] (0, -1) 20) (Food.mk (100, 140) 20)
               0 5 true true, []).
Proof.
  assert (Hreach : reachable top_row_game).
  { apply (main_reachable (repeat [] 15) [5; 7] top_row_game []).
    vm_compute. reflexivity. }
  assert (Hevs : process_events [KEYDOWN K_UP] top_row_game [] =
                 Ok (top_row_game, [])).
  { vm_compute. reflexivity. }
  assert (Hmove : Snake.move (snake top_row_game) =
                  Ok (Snake.mk [(400, -20)] (0, -1) 20)).
  { vm_compute. reflexivity. }
  assert (Hwall : Snake.is_wall_collision (Snake.mk [(400, -20)] (0, -1) 20) =
                  Ok true).
  { vm_compute. reflexivity. }
  split; [exact Hreach|]. split; [exact Hevs|]. split; [reflexivity|].
  split; [exact Hmove|]. split; [exact Hwall|].
  exact (proj1 (collision_tick_ends_game
                  top_row_game [KEYDOWN K_UP] [] top_row_game []
                  (Snake.mk [(400, -20)] (0, -1) 20)
                  Hreach Hevs (eq_refl false) Hmove (or_intror Hwall))).
Defined.

(** C4.  In every state of [main] after the initial food placement and at
    the end of each complete frame, whatever the events and the draws, the
    food's position is not an element of the snake's body. *)
Theorem food_never_on_snake (g : Game) (H : reachable g) :
  ~ In (Food.position (food g)) (Snake.body (snake g)).
Proof. exact (inv_food_off g (reachable_inv g H)). Qed.

Lemma food_never_on_snake_witness :
  reachable first_meal_game /\
  ~ In (Food.position (food first_meal_game))
       (Snake.body (snake first_meal_game)).
Proof.
  assert (Hreach : reachable first_meal_game).
  { apply (main_reachable [[]] [20; 14; 3; 4] first_meal_game []).
    vm_compute. reflexivity. }
  split; [exact Hreach|].
  exact (food_never_on_snake first_meal_game Hreach).
Defined.

(** C7.  The restart key leaves the locals and the draws untouched unless
    the phase is GameOver.  In GameOver the handler never raises, returns
    as soon as one sampled cell differs from the center, and every state it
    returns has score 0, framerate 5, phase Running, the snake of
    [Snake()] (one segment at the arena center (400, 300), heading up) and
    the food on a cell that is not in that snake's body. *)
Theorem restart_resets_game (g : Game) (rng : list Z) :
  (game_over g = false ->
   handle_event (KEYDOWN K_r) g rng = Ok (g, rng)) /\
  (game_over g = true ->
   (forall g' rng',
      handle_event (KEYDOWN K_r) g rng = Ok (g', rng') ->
      score g' = 0 /\ framerate g' = 5 /\ game_over g' = false /\
      snake g' = Snake.mk [(400, 300)] (0, -1) 20 /\
      ~ In (Food.position (food g')) (Snake.body (snake g')) /\
      running g' = running g) /\
   (forall e, handle_event (KEYDOWN K_r) g rng <> Raise e) /\
   ((exists c, In c (samples rng) /\ c <> (400, 300)) ->
    exists g' rng', handle_event (KEYDOWN K_r) g rng = Ok (g', rng'))).
Proof.
  split; intros Hover; cbn [handle_event]; rewrite Hover; [reflexivity|].
  cbv zeta. split; [|split].
  - intros g' rng' H. apply bind_inv in H.
    destruct H as (f1 & rng1 & Hreset & Hret).
    apply ret_inv in Hret. destruct Hret as [-> _].
    destruct (reset_position_ok Food.init Snake.init _ _ _ eq_refl Hreset)
      as (_ & Hoff & _).
    cbn [score framerate game_over snake food running].
    repeat split. exact Hoff.
  - intros e H. unfold bind in H.
    destruct (Food.reset_position Food.init Snake.init rng)
      as [[f1 rng1]|e'|] eqn:Hreset; try discriminate.
    injection H as ->.
    exact (reset_position_never_raises Food.init Snake.init rng e eq_refl Hreset).
  - intros (c & Hin & Hc).
    destruct (reset_position_returns Food.init Snake.init rng eq_refl)
      as (f1 & rng1 & Hreset).
    { exists c. split; [exact Hin|]. intros [E | []]. apply Hc.
      symmetry. exact E. }
    eexists. eexists. rewrite (bind_ok _ _ _ _ _ Hreset). reflexivity.
Qed.

Lemma restart_resets_game_witness :
  game_over game_over_game = true /\
  handle_event (KEYDOWN K_r) game_over_game [20; 15; 45; 31] =
    Ok (mkGame Snake.init (Food.mk (100, 20) 20) 0 5 false true, []) /\
  score (mkGame Snake.init (Food.mk (100, 20) 20) 0 5 false true) = 0 /\
  framerate (mkGame Snake.init (Food.mk (100, 20) 20) 0 5 false true) = 5 /\
  game_over (mkGame Snake.init (Food.mk (100, 20) 20) 0 5 false true) = false /\
  snake (mkGame Snake.init (Food.mk (100, 20) 20) 0 5 false true) =
    Snake.mk [(400, 300)] (0, -1) 20 /\
  ~ In (Food.position (food (mkGame Snake.init (Food.mk (100, 20) 20)
                                     0 5 false true)))
       (Snake.body (snake (mkGame Snake.init (Food.mk (100, 20) 20)
                                  0 5 false true))) /\
  running (mkGame Snake.init (Food.mk (100, 20) 20) 0 5 false true) =
    running game_over_game.
Proof.
  assert (Hrun : handle_event (KEYDOWN K_r) game_over_game [20; 15; 45; 31] =
                 Ok (mkGame Snake.init (Food.mk (100, 20) 20) 0 5 false true, [])).
  { vm_compute. reflexivity. }
  split; [reflexivity|]. split; [exact Hrun|].
  exact (proj1 (proj2 (restart_resets_game game_over_game [20; 15; 45; 31])
                      (eq_refl true))
               (mkGame Snake.init (Food.mk (100, 20) 20) 0 5 false true) []
               Hrun).
Defined.

Lemma move_keeps_aligned (s s' : Snake.t) :
  Snake.size s = 20 -> Forall aligned (Snake.body s) ->
  Snake.move s = Ok s' ->
  Forall aligned (Snake.body s') /\ Snake.size s' = 20.
Proof.
  destruct s as [b d sz]. cbn [Snake.body Snake.size]. intros -> Hal Hmove.
  destruct b as [|c rest]; [discriminate Hmove|].
  rewrite move_cons in Hmove.
  assert (Hrest : Forall aligned (removelast (c :: rest))).
  { apply Forall_forall. intros x Hx. apply removelast_incl in Hx.
    rewrite Forall_forall in Hal. apply Hal. exact Hx. }
  remember (removelast (c :: rest)) as rl eqn:Hrl. clear Hrl.
  injection Hmove as <-. cbn [Snake.body Snake.size].
  split; [|reflexivity]. constructor; [|exact Hrest].
  apply aligned_translate. inversion Hal. assumption.
Qed.

Lemma grow_keeps_aligned (s s' : Snake.t) :
  Forall aligned (Snake.body s) -> Snake.grow s = Ok s' ->
  Forall aligned (Snake.body s') /\ Snake.size s' = Snake.size s.
Proof.
  intros Hal Hgrow. unfold Snake.grow in Hgrow.
  destruct (list_last (Snake.body s)) as [tail| |] eqn:Hlast;
    try discriminate Hgrow.
  cbn [rbind] in Hgrow. injection Hgrow as <-. cbn [Snake.body Snake.size].
  split; [|reflexivity]. apply Forall_app. split; [exact Hal|].
  constructor; [|constructor].
  rewrite Forall_forall in Hal. apply Hal. apply list_last_In. exact Hlast.
Qed.

Lemma restart_returns_fresh (g : Game) (rng : list Z) (g' : Game)
      (rng' : list Z) :
  game_over g = true ->
  handle_event (KEYDOWN K_r) g rng = Ok (g', rng') ->
  exists f1,
    g' = mkGame Snake.init f1 0 INITIAL_FRAMERATE false (running g) /\
    Food.size f1 = 20 /\
    ~ In (Food.position f1) (Snake.body Snake.init) /\
    in_arena (Food.position f1).
Proof.
  intros Hover H. cbn [handle_event] in H. rewrite Hover in H. cbv zeta in H.
  apply bind_inv in H. destruct H as (f1 & rng1 & Hreset & Hret).
  apply ret_inv in Hret. destruct Hret as [-> _].
  destruct (reset_position_ok Food.init Snake.init _ _ _ eq_refl Hreset)
    as (Hsz & Hoff & Har).
  exists f1. split; [reflexivity|]. split; [exact Hsz|]. split; assumption.
Qed.

(** C9.  In every reachable state each coordinate of each body segment is
    a multiple of 20 and the food lies on a grid cell of the arena (x a
    multiple of 20 in [0, 780], y a multiple of 20 in [0, 580]); both
    sizes are 20.  [move] and [grow] keep an aligned body aligned,
    [reset_position] and a restart leave the food on a grid cell of the
    arena, and a restart leaves an aligned snake. *)
Theorem grid_alignment_invariant :
  (forall g, reachable g ->
     on_grid g /\ Snake.size (snake g) = 20 /\ Food.size (food g) = 20) /\
  (forall s s',
     Snake.size s = 20 -> Forall aligned (Snake.body s) ->
     Snake.move s = Ok s' ->
     Forall aligned (Snake.body s') /\ Snake.size s' = 20) /\
  (forall s s',
     Forall aligned (Snake.body s) -> Snake.grow s = Ok s' ->
     Forall aligned (Snake.body s') /\ Snake.size s' = Snake.size s) /\
  (forall f s rng f' rng',
     Food.size f = 20 -> Food.reset_position f s rng = Ok (f', rng') ->
     in_arena (Food.position f') /\ Food.size f' = 20) /\
  (forall g rng g' rng',
     game_over g = true ->
     handle_event (KEYDOWN K_r) g rng = Ok (g', rng') ->
     on_grid g' /\ Snake.size (snake g') = 20 /\ Food.size (food g') = 20).
Proof.
  split; [|split; [|split; [|split]]].
  - intros g Hreach. destruct (reachable_inv g Hreach).
    split; [split; assumption|]. split; assumption.
  - exact move_keeps_aligned.
  - exact grow_keeps_aligned.
  - intros f s rng f' rng' Hsz Hrun.
    destruct (reset_position_ok _ _ _ _ _ Hsz Hrun) as (Hsz' & _ & Har).
    split; assumption.
  - intros g rng g' rng' Hover H.
    destruct (restart_returns_fresh _ _ _ _ Hover H)
      as (f1 & -> & Hsz & Hoff & Har).
    destruct (fresh_game_inv f1 (running g) Hsz Har Hoff).
    split; [split; assumption|]. split; assumption.
Qed.

Lemma grid_alignment_invariant_witness :
  reachable first_meal_game /\
  on_grid first_meal_game /\
  Snake.size (snake first_meal_game) = 20 /\
  Food.size (food first_meal_game) = 20.
Proof.
  assert (Hreach : reachable first_meal_game).
  { apply (main_reachable [[]] [20; 14; 3; 4] first_meal_game []).
    vm_compute. reflexivity. }
  split; [exact Hreach|].
  exact (proj1 grid_alignment_invariant first_meal_game Hreach).
Defined.

Lemma setup_counts (rng : list Z) (g : Game) (rng' : list Z) :
  setup rng = Ok (g, rng') -> body_length g = 1 /\ score g = 0.
Proof.
  unfold setup. cbv zeta. intros H.
  apply bind_inv in H. destruct H as (f1 & rng1 & _ & Hret).
  apply ret_inv in Hret. destruct Hret as [-> _]. split; reflexivity.
Qed.

Lemma handle_event_counts (ev : Event) (g : Game) (rng : list Z)
      (g' : Game) (rng' : list Z) :
  handle_event ev g rng = Ok (g', rng') ->
  (body_length g' = body_length g /\ score g' = score g) \/
  (ev = KEYDOWN K_r /\ game_over g = true /\
   body_length g' = 1 /\ score g' = 0).
Proof.
  intros H. unfold body_length.
  destruct ev as [|[| | | | |]|]; cbn [handle_event] in H;
    try (apply ret_inv in H; destruct H as [-> _]; left;
         cbn [with_snake snake score];
         rewrite ?(proj1 (change_direction_keeps _ _));
         split; reflexivity).
  destruct (game_over g) eqn:Hover.
  - right. destruct (restart_returns_fresh g rng g' rng' Hover)
      as (f1 & -> & _).
    { cbn [handle_event]. rewrite Hover. exact H. }
    repeat split.
  - left. apply ret_inv in H. destruct H as [-> _]. split; reflexivity.
Qed.

Lemma tick_counts (g : Game) (rng : list Z) (g' : Game) (rng' : list Z) :
  tick g rng = Ok (g', rng') ->
  (body_length g' = body_length g /\ score g' = score g) \/
  (body_length g' = body_length g + 1 /\ score g' = score g + 1).
Proof.
  intros H. unfold body_length. destruct (game_over g) eqn:Hover.
  - unfold tick in H. rewrite Hover in H. cbn [negb] in H.
    apply ret_inv in H. destruct H as [-> _]. left. split; reflexivity.
  - destruct (Snake.body (snake g)) as [|c rest] eqn:Hbody.
    + unfold tick in H. rewrite Hover in H. cbn [negb] in H.
      apply bind_inv in H. destruct H as (s1 & rng1 & Hmove & _).
      apply lift_inv in Hmove. destruct Hmove as [Hmove _].
      destruct (snake g) as [b d sz]. cbn [Snake.body] in Hbody. subst b.
      discriminate Hmove.
    + destruct (tick_running g c rest rng Hover Hbody) as [_ Htick].
      cbv zeta in Htick. rewrite Htick in H. clear Htick.
      assert (Hlen : S (length (removelast (c :: rest))) = length (c :: rest)).
      { rewrite removelast_length. reflexivity. }
      remember (removelast (c :: rest)) as rl eqn:Hrl. clear Hrl.
      match type of H with
      | (if cell_eqb ?h _ then _ else _) = _ => set (hd := h) in *
      end.
      destruct (cell_eqb hd (Food.position (food g))).
      * right.
        apply bind_inv in H. destruct H as (snake2 & rng1 & Hgrow & H).
        apply lift_inv in Hgrow. destruct Hgrow as [Hgrow ->].
        apply bind_inv in H. destruct H as (food2 & rng2 & _ & H).
        apply ret_inv in H. destruct H as [-> _].
        destruct (grow_nonempty
                    (Snake.mk (hd :: rl) (Snake.direction (snake g))
                              (Snake.size (snake g))))
          as (tail & _ & Hg); [discriminate|].
        rewrite Hg in Hgrow. injection Hgrow as <-.
        cbn [snake score Snake.body]. split; [|reflexivity].
        cbn [app length] in *. rewrite length_app. cbn [length]. lia.
      * left. injection H as <- _. cbn [snake score Snake.body length].
        split; [|reflexivity]. rewrite Hlen. reflexivity.
Qed.

Lemma handle_event_counts_exact (ev : Event) (g : Game) (rng : list Z)
      (g' : Game) (rng' : list Z) :
  handle_event ev g rng = Ok (g', rng') ->
  (ev = KEYDOWN K_r /\ game_over g = true ->
   body_length g' = 1 /\ score g' = 0) /\
  (ev <> KEYDOWN K_r \/ game_over g = false ->
   body_length g' = body_length g /\ score g' = score g).
Proof.
  intros H. split.
  - intros [-> Hover].
    destruct (restart_returns_fresh g rng g' rng' Hover H) as (f1 & -> & _).
    split; reflexivity.
  - intros Hother.
    destruct (handle_event_counts ev g rng g' rng' H)
      as [Hsame | (Hev & Hover & _)]; [exact Hsame|].
    destruct Hother as [Hne | Hrun]; [contradiction | congruence].
Qed.

Lemma tick_counts_exact (g : Game) (rng : list Z) (g' : Game) (rng' : list Z) :
  tick g rng = Ok (g', rng') ->
  (game_over g = true ->
   body_length g' = body_length g /\ score g' = score g) /\
  (game_over g = false ->
   exists snake1 h,
     Snake.move (snake g) = Ok snake1 /\
     Snake.head snake1 = Ok h /\
     (h = Food.position (food g) ->
      body_length g' = body_length g + 1 /\ score g' = score g + 1) /\
     (h <> Food.position (food g) ->
      body_length g' = body_length g /\ score g' = score g)).
Proof.
  intros H. unfold body_length. split; intros Hover.
  - unfold tick in H. rewrite Hover in H. cbn [negb] in H.
    apply ret_inv in H. destruct H as [-> _]. split; reflexivity.
  - destruct (Snake.body (snake g)) as [|c rest] eqn:Hbody.
    + unfold tick in H. rewrite Hover in H. cbn [negb] in H.
      apply bind_inv in H. destruct H as (s1 & rng1 & Hmove & _).
      apply lift_inv in Hmove. destruct Hmove as [Hmove _].
      destruct (snake g) as [b d sz]. cbn [Snake.body] in Hbody. subst b.
      discriminate Hmove.
    + destruct (tick_running g c rest rng Hover Hbody) as [Hmove Htick].
      cbv zeta in Hmove, Htick. rewrite Htick in H. clear Htick.
      assert (Hlen : S (length (removelast (c :: rest))) = length (c :: rest)).
      { rewrite removelast_length. reflexivity. }
      remember (removelast (c :: rest)) as rl eqn:Hrl. clear Hrl.
      match type of H with
      | (if cell_eqb ?h _ then _ else _) = _ => set (hd := h) in *
      end.
      eexists. exists hd. split; [exact Hmove|]. split; [reflexivity|].
      destruct (cell_eqb hd (Food.position (food g))) eqn:Heat.
      * apply cell_eqb_eq in Heat. split; [|intros Hne; contradiction].
        intros _.
        apply bind_inv in H. destruct H as (snake2 & rng1 & Hgrow & H).
        apply lift_inv in Hgrow. destruct Hgrow as [Hgrow ->].
        apply bind_inv in H. destruct H as (food2 & rng2 & _ & H).
        apply ret_inv in H. destruct H as [-> _].
        destruct (grow_nonempty
                    (Snake.mk (hd :: rl) (Snake.direction (snake g))
                              (Snake.size (snake g))))
          as (tail & _ & Hg); [discriminate|].
        rewrite Hg in Hgrow. injection Hgrow as <-.
        cbn [snake score Snake.body]. split; [|reflexivity].
        cbn [app length] in *. rewrite length_app. cbn [length]. lia.
      * apply cell_eqb_neq in Heat. split; [intros E; contradiction|].
        intros _. injection H as <- _. cbn [snake score Snake.body length].
        split; [|reflexivity]. rewrite Hlen. reflexivity.
Qed.

Lemma long_game_over_reachable : reachable long_game_over_game.
Proof.
  apply (main_reachable (repeat [] 16) [20; 14; 20; 13; 0; 0]
                        long_game_over_game []).
  vm_compute. reflexivity.
Qed.

Lemma restarted_reachable : reachable restarted_game.
Proof.
  apply (reach_frame long_game_over_game [KEYDOWN K_r] [5; 7] restarted_game []).
  - exact long_game_over_reachable.
  - reflexivity.
  - vm_compute. reflexivity.
Qed.

(** C10.  In every reachable state the body length is the score plus one.
    The setup starts them at 1 and 0.  The restart key pressed in GameOver
    resets them to 1 and 0, and every other event (the restart key outside
    GameOver included) leaves both as they were.  A tick in GameOver
    leaves both as they were; a tick of a running game adds one to each
    when the moved head is on the food, and leaves both as they were when
    it is not. *)
Theorem length_is_score_plus_one :
  (forall g, reachable g -> body_length g = score g + 1) /\
  (forall rng g rng',
     setup rng = Ok (g, rng') -> body_length g = 1 /\ score g = 0) /\
  (forall ev g rng g' rng',
     handle_event ev g rng = Ok (g', rng') ->
     (ev = KEYDOWN K_r /\ game_over g = true ->
      body_length g' = 1 /\ score g' = 0) /\
     (ev <> KEYDOWN K_r \/ game_over g = false ->
      body_length g' = body_length g /\ score g' = score g)) /\
  (forall g rng g' rng',
     tick g rng = Ok (g', rng') ->
     (game_over g = true ->
      body_length g' = body_length g /\ score g' = score g) /\
     (game_over g = false ->
      exists snake1 h,
        Snake.move (snake g) = Ok snake1 /\
        Snake.head snake1 = Ok h /\
        (h = Food.position (food g) ->
         body_length g' = body_length g + 1 /\ score g' = score g + 1) /\
        (h <> Food.position (food g) ->
         body_length g' = body_length g /\ score g' = score g))).
Proof.
  split; [|split; [|split]].
  - intros g Hreach. exact (inv_length g (reachable_inv g Hreach)).
  - exact setup_counts.
  - exact handle_event_counts_exact.
  - exact tick_counts_exact.
Qed.

Lemma length_is_score_plus_one_witness :
  (reachable restarted_game /\
   body_length restarted_game = score restarted_game + 1) /\
  (reachable long_game_over_game /\
   body_length long_game_over_game = 3 /\ score long_game_over_game = 2 /\
   handle_event (KEYDOWN K_r) long_game_over_game [5; 7] =
     Ok (mkGame Snake.init (Food.mk (100, 140) 20) 0 5 false true, []) /\
   body_length (mkGame Snake.init (Food.mk (100, 140) 20) 0 5 false true) = 1 /\
   score (mkGame Snake.init (Food.mk (100, 140) 20) 0 5 false true) = 0) /\
  (body_length second_meal_game = 2 /\ score second_meal_game = 1 /\
   tick second_meal_game [0; 0] = Ok (after_second_meal_game, []) /\
   exists snake1 h,
     Snake.move (snake second_meal_game) = Ok snake1 /\
     Snake.head snake1 = Ok h /\
     (h = Food.position (food second_meal_game) ->
      body_length after_second_meal_game = body_length second_meal_game + 1 /\
      score after_second_meal_game = score second_meal_game + 1) /\
     (h <> Food.position (food second_meal_game) ->
      body_length after_second_meal_game = body_length second_meal_game /\
      score after_second_meal_game = score second_meal_game)).
Proof.
  assert (Hrestart : handle_event (KEYDOWN K_r) long_game_over_game [5; 7] =
            Ok (mkGame Snake.init (Food.mk (100, 140) 20) 0 5 false true, [])).
  { vm_compute. reflexivity. }
  assert (Htick : tick second_meal_game [0; 0] =
                  Ok (after_second_meal_game, [])).
  { vm_compute. reflexivity. }
  split; [|split].
  - split; [exact restarted_reachable|].
    exact (proj1 length_is_score_plus_one restarted_game restarted_reachable).
  - split; [exact long_game_over_reachable|].
    split; [reflexivity|]. split; [reflexivity|]. split; [exact Hrestart|].
    exact (proj1 (proj1 (proj2 (proj2 length_is_score_plus_one))
                        (KEYDOWN K_r) long_game_over_game [5; 7] _ [] Hrestart)
                 (conj eq_refl eq_refl)).
  - split; [reflexivity|]. split; [reflexivity|]. split; [exact Htick|].
    exact (proj2 (proj2 (proj2 (proj2 length_is_score_plus_one))
                        second_meal_game [0; 0] after_second_meal_game []
                        Htick)
                 (eq_refl false)).
Defined.

(** ** Further properties of the snake *)

(** X1.  Every method that reads the head or the tail raises [IndexError] on
    an empty body, and none of them raises on a non-empty one. *)
Theorem snake_methods_index_error (s : Snake.t) :
  (Snake.body s = [] ->
   Snake.head s = Raise IndexError /\
   Snake.move s = Raise IndexError /\
   Snake.is_self_collision s = Raise IndexError /\
   Snake.is_wall_collision s = Raise IndexError /\
   Snake.grow s = Raise IndexError) /\
  (Snake.body s <> [] ->
   exists h s1 b1 b2 s2,
     Snake.head s = Ok h /\
     Snake.move s = Ok s1 /\
     Snake.is_self_collision s = Ok b1 /\
     Snake.is_wall_collision s = Ok b2 /\
     Snake.grow s = Ok s2).
Proof.
  destruct s as [b d sz]. cbn [Snake.body]. split.
  - intros ->. repeat split.
  - intros H. destruct b as [|c rest]; [congruence|].
    destruct (collision_tests_cons c rest d sz) as (Hs & Hw & Hh).
    destruct (grow_nonempty (Snake.mk (c :: rest) d sz) H) as (tail & _ & Hg).
    exists c. eexists. eexists. eexists. eexists.
    split; [exact Hh|]. split; [apply move_cons|].
    split; [exact Hs|]. split; [exact Hw | exact Hg].
Qed.

Lemma snake_methods_index_error_witness :
  Snake.move (Snake.mk [] (0, -1) 20) = Raise IndexError /\
  Snake.grow (Snake.mk [] (0, -1) 20) = Raise IndexError.
Proof.
  destruct (proj1 (snake_methods_index_error (Snake.mk [] (0, -1) 20)) eq_refl)
    as (_ & Hm & _ & _ & Hg).
  split; [exact Hm | exact Hg].
Defined.

(** X2.  [grow] followed by [move] puts the new head in front of the body as
    it was before [grow]: no segment leaves its cell, the tail stays where
    it was. *)
Theorem grow_move_prepends_head (s : Snake.t) (H : Snake.body s <> []) :
  exists h s1 s2,
    Snake.head s = Ok h /\
    Snake.grow s = Ok s1 /\
    Snake.move s1 = Ok s2 /\
    Snake.body s2 =
      (fst h + fst (Snake.direction s) * Snake.size s,
       snd h + snd (Snake.direction s) * Snake.size s) :: Snake.body s.
Proof.
  destruct (grow_nonempty s H) as (tail & _ & Hg).
  destruct s as [b d sz]. cbn [Snake.body Snake.direction Snake.size] in *.
  destruct b as [|c rest]; [congruence|].
  exists c. eexists. eexists.
  split; [reflexivity|]. split; [exact Hg|].
  cbn [app]. rewrite move_cons. split; [reflexivity|].
  cbn [Snake.body]. f_equal.
  change (c :: rest ++ [tail]) with ((c :: rest) ++ [tail]).
  apply removelast_last.
Qed.

Lemma grow_move_prepends_head_witness :
  Snake.body (Snake.mk [(400, 300); (400, 320)] (-1, 0) 20) <> [] /\
  exists h s1 s2,
    Snake.head (Snake.mk [(400, 300); (400, 320)] (-1, 0) 20) = Ok h /\
    Snake.grow (Snake.mk [(400, 300); (400, 320)] (-1, 0) 20) = Ok s1 /\
    Snake.move s1 = Ok s2 /\
    Snake.body s2 =
      (fst h + -1 * 20, snd h + 0 * 20) :: [(400, 300); (400, 320)].
Proof.
  split; [discriminate|].
  exact (grow_move_prepends_head
           (Snake.mk [(400, 300); (400, 320)] (-1, 0) 20)
           ltac:(discriminate)).
Defined.

Lemma outside_arena_aligned (h : Cell) :
  aligned h -> (outside_arena h = false <-> in_arena h).
Proof.
  intros [[kx Hx] [ky Hy]]. unfold outside_arena, in_arena, aligned, WIDTH, HEIGHT.
  rewrite !orb_false_iff. split.
  - intros [[[H1 H2] H3] H4].
    split; [split; [exists kx | exists ky]; assumption|]. lia.
  - intros (_ & H1 & H2). repeat split; lia.
Qed.

(** X3.  For a head on the 20-pixel grid, [is_wall_collision] is false
    exactly when the head is on one of the cells where food can be placed (x
    in [0, 780], y in [0, 580]). *)
Theorem wall_collision_iff_off_arena (s : Snake.t) (h : Cell)
        (Hhead : Snake.head s = Ok h) (Hal : aligned h) :
  exists b, Snake.is_wall_collision s = Ok b /\ (b = false <-> in_arena h).
Proof.
  destruct s as [b d sz]. destruct b as [|c rest]; [discriminate Hhead|].
  injection Hhead as ->.
  exists (outside_arena h). split.
  - apply collision_tests_cons.
  - apply outside_arena_aligned. exact Hal.
Qed.

Lemma wall_collision_iff_off_arena_witness :
  Snake.head (Snake.mk [(780, 580); (760, 580)] (1, 0) 20) = Ok (780, 580) /\
  aligned (780, 580) /\
  exists b,
    Snake.is_wall_collision (Snake.mk [(780, 580); (760, 580)] (1, 0) 20) = Ok b /\
    (b = false <-> in_arena (780, 580)).
Proof.
  assert (Hal : aligned (780, 580)).
  { split; [exists 39 | exists 29]; reflexivity. }
  split; [reflexivity|]. split; [exact Hal|].
  exact (wall_collision_iff_off_arena
           (Snake.mk [(780, 580); (760, 580)] (1, 0) 20) (780, 580)
           eq_refl Hal).
Defined.

Lemma unit_vectors_cases (d : Z * Z) :
  In d unit_vectors ->
  d = (0, -1) \/ d = (0, 1) \/ d = (-1, 0) \/ d = (1, 0).
Proof.
  cbn [unit_vectors In]. intros [H | [H | [H | [H | []]]]]; auto.
Qed.

(** X4.  One key press never turns the head back onto the neck: when the
    segment behind the head is one step against the direction, then after
    [change_direction d], for any [d], the next [move] puts the head on a
    cell other than that segment's. *)
Theorem single_turn_misses_neck
        (s : Snake.t) (h n : Cell) (rest : list Cell) (d : Z * Z)
        (Hbody : Snake.body s = h :: n :: rest)
        (Hsize : Snake.size s = 20)
        (Hdir : In (Snake.direction s) unit_vectors)
        (Hneck : n = (fst h - fst (Snake.direction s) * 20,
                      snd h - snd (Snake.direction s) * 20)) :
  exists s', Snake.move (Snake.change_direction s d) = Ok s' /\
             Snake.head s' <> Ok n.
Proof.
  destruct s as [b dir sz].
  cbn [Snake.body Snake.size Snake.direction] in *. subst b sz n.
  destruct (change_direction_cases
              (Snake.mk (h :: (fst h - fst dir * 20, snd h - snd dir * 20) :: rest)
                        dir 20) d)
    as [[E ->] | [N ->]]; cbn [Snake.body Snake.size];
    rewrite move_cons; eexists; (split; [reflexivity|]);
    cbn [Snake.head Snake.body Snake.direction]; intros Heq;
    injection Heq as Hx Hy.
  - apply unit_vectors_cases in Hdir.
    destruct Hdir as [-> | [-> | [-> | ->]]]; cbn [fst snd] in *; lia.
  - apply N. unfold negation. destruct d as [dx dy], dir as [cx cy].
    cbn [fst snd Snake.direction] in *. f_equal; lia.
Qed.

Lemma single_turn_misses_neck_witness :
  exists s',
    Snake.move (Snake.change_direction
                  (Snake.mk [(400, 240); (400, 260); (400, 280)] (0, -1) 20)
                  (0, 1)) = Ok s' /\
    Snake.head s' <> Ok (400, 260).
Proof.
  exact (single_turn_misses_neck
           (Snake.mk [(400, 240); (400, 260); (400, 280)] (0, -1) 20)
           (400, 240) (400, 260) [(400, 280)] (0, 1)
           eq_refl eq_refl (or_introl eq_refl) eq_refl).
Defined.

(** ** Further properties of the food placement *)

Lemma arena_cells_complete (c : Cell) : in_arena c -> In c arena_cells.
Proof.
  intros ([[kx Hx] [ky Hy]] & Bx & By_). unfold arena_cells.
  apply in_flat_map. exists (Z.to_nat kx). split.
  - apply in_seq. lia.
  - apply in_map_iff. exists (Z.to_nat ky). split.
    + destruct c as [x y]. cbn [fst snd] in *. f_equal; lia.
    + apply in_seq. lia.
Qed.

Lemma reset_position_reaches (f : Food.t) (s : Snake.t) (c : Cell) :
  Food.size f = 20 -> in_arena c -> ~ In c (Snake.body s) ->
  Food.reset_position f s [fst c / 20; snd c / 20] = Ok (Food.mk c 20, []).
Proof.
  intros Hsz ([[kx Hx] [ky Hy]] & Bx & By_) Hfree.
  rewrite reset_position_loop by exact Hsz.
  assert (Ex : fst c / 20 mod 40 * 20 = fst c).
  { rewrite Hx. rewrite Z.div_mul by lia. rewrite Z.mod_small by lia.
    reflexivity. }
  assert (Ey : snd c / 20 mod 30 * 20 = snd c).
  { rewrite Hy. rewrite Z.div_mul by lia. rewrite Z.mod_small by lia.
    reflexivity. }
  rewrite Ex, Ey. rewrite <- surjective_pairing.
  apply cell_in_not_In in Hfree. rewrite Hfree. reflexivity.
Qed.

Lemma reset_loop_starved (fuel : nat) :
  forall (f : Food.t) (s : Snake.t) (rng : list Z),
  Food.size f = 20 ->
  (forall c, In c (samples rng) -> In c (Snake.body s)) ->
  Food.reset_loop fuel f s rng = Starved.
Proof.
  induction fuel as [|fuel IH]; intros f s rng Hsz Hall; [reflexivity|].
  destruct rng as [|rx [|ry rest]];
    try (apply reset_loop_short; [exact Hsz | cbn [length]; lia]).
  rewrite reset_loop_round by exact Hsz.
  assert (Hin : cell_in (rx mod 40 * 20, ry mod 30 * 20) (Snake.body s) = true).
  { apply cell_in_In. apply Hall. left. reflexivity. }
  rewrite Hin. apply IH; [reflexivity|].
  intros c Hc. apply Hall. right. exact Hc.
Qed.

(** X5.  For a food of size 20, [reset_position] can return (for some draws)
    if and only if some grid cell of the arena is not in the snake's body:
    every free cell is chosen by some draws, and when the body covers the
    whole arena the loop is still sampling however many draws it is given. *)
Theorem reset_position_returns_iff_free_cell
        (f : Food.t) (s : Snake.t) (Hsz : Food.size f = 20) :
  ((exists rng f' rng', Food.reset_position f s rng = Ok (f', rng')) <->
   (exists c, in_arena c /\ ~ In c (Snake.body s))) /\
  (forall c, in_arena c -> ~ In c (Snake.body s) ->
     exists rng, Food.reset_position f s rng = Ok (Food.mk c 20, [])) /\
  ((forall c, in_arena c -> In c (Snake.body s)) ->
   forall rng, Food.reset_position f s rng = Starved).
Proof.
  split; [split|split].
  - intros (rng & f' & rng' & Hrun).
    destruct (reset_position_ok _ _ _ _ _ Hsz Hrun) as (_ & Hoff & Har).
    exists (Food.position f'). split; assumption.
  - intros (c & Har & Hfree). eexists. eexists. eexists.
    apply (reset_position_reaches f s c Hsz Har Hfree).
  - intros c Har Hfree. eexists.
    apply (reset_position_reaches f s c Hsz Har Hfree).
  - intros Hfull rng. unfold Food.reset_position.
    apply reset_loop_starved; [exact Hsz|].
    intros c Hc. apply Hfull. apply (samples_in_arena rng). exact Hc.
Qed.

Lemma reset_position_returns_iff_free_cell_witness :
  Food.size Food.init = 20 /\
  (forall rng,
     Food.reset_position Food.init (Snake.mk arena_cells (0, -1) 20) rng =
     Starved) /\
  (exists rng,
     Food.reset_position Food.init Snake.init rng = Ok (Food.mk (780, 580) 20, [])).
Proof.
  split; [reflexivity|]. split.
  - apply (proj2 (proj2 (reset_position_returns_iff_free_cell
                           Food.init (Snake.mk arena_cells (0, -1) 20) eq_refl))).
    intros c Har. apply arena_cells_complete. exact Har.
  - apply (proj1 (proj2 (reset_position_returns_iff_free_cell
                           Food.init Snake.init eq_refl))).
    + split; [split; [exists 39 | exists 29]; reflexivity|]. cbn [fst snd]. lia.
    + intros [E | []]. discriminate E.
Defined.

Lemma reset_loop_first_free (fuel : nat) :
  forall (f : Food.t) (s : Snake.t) (rng : list Z) (f' : Food.t) (rng' : list Z),
  Food.size f = 20 ->
  Food.reset_loop fuel f s rng = Ok (f', rng') ->
  exists n,
    nth_error (samples rng) n = Some (Food.position f') /\
    (forall m c, (m < n)%nat -> nth_error (samples rng) m = Some c ->
                 In c (Snake.body s)) /\
    rng' = skipn (2 * S n) rng.
Proof.
  induction fuel as [|fuel IH]; intros f s rng f' rng' Hsz Hrun;
    [discriminate Hrun|].
  destruct rng as [|rx [|ry rest]];
    try (rewrite reset_loop_short in Hrun by (trivial; cbn [length]; lia);
         discriminate Hrun).
  rewrite reset_loop_round in Hrun by exact Hsz.
  destruct (cell_in (rx mod 40 * 20, ry mod 30 * 20) (Snake.body s)) eqn:E.
  - apply IH in Hrun; [|reflexivity].
    destruct Hrun as (n & Hn & Hbefore & Hrest).
    exists (S n). split; [exact Hn|]. split.
    + intros m c Hm Hc. destruct m as [|m].
      * cbn [samples nth_error] in Hc. injection Hc as <-.
        apply cell_in_In. exact E.
      * apply (Hbefore m c); [lia | exact Hc].
    + rewrite Hrest. replace (2 * S (S n))%nat with (S (S (2 * S n))) by lia.
      reflexivity.
  - injection Hrun as <- <-. exists O. split; [reflexivity|]. split.
    + intros m c Hm. lia.
    + reflexivity.
Qed.

(** X6.  For a food of size 20, a call of [reset_position] that returns has
    chosen the first sampled cell that is not in the snake's body: the
    chosen cell is not in the body, every cell sampled before it is, and
    the draws left are those after the two draws of the chosen cell. *)
Theorem reset_position_first_free
        (f : Food.t) (s : Snake.t) (rng : list Z) (f' : Food.t) (rng' : list Z)
        (Hsz : Food.size f = 20)
        (Hrun : Food.reset_position f s rng = Ok (f', rng')) :
  ~ In (Food.position f') (Snake.body s) /\
  exists n,
    nth_error (samples rng) n = Some (Food.position f') /\
    (forall m c, (m < n)%nat -> nth_error (samples rng) m = Some c ->
                 In c (Snake.body s)) /\
    rng' = skipn (2 * S n) rng.
Proof.
  split.
  - exact (proj1 (proj2 (reset_position_ok f s rng f' rng' Hsz Hrun))).
  - exact (reset_loop_first_free _ f s rng f' rng' Hsz Hrun).
Qed.

Lemma reset_position_first_free_witness :
  Food.reset_position Food.init Snake.init [20; 15; 60; 45; 5; 7; 9] =
    Ok (Food.mk (100, 140) 20, [9]) /\
  ~ In (100, 140) (Snake.body Snake.init) /\
  exists n,
    nth_error (samples [20; 15; 60; 45; 5; 7; 9]) n = Some (100, 140) /\
    (forall m c, (m < n)%nat ->
                 nth_error (samples [20; 15; 60; 45; 5; 7; 9]) m = Some c ->
                 In c (Snake.body Snake.init)) /\
    [9] = skipn (2 * S n) [20; 15; 60; 45; 5; 7; 9].
Proof.
  split; [reflexivity|].
  exact (reset_position_first_free
           Food.init Snake.init [20; 15; 60; 45; 5; 7; 9]
           (Food.mk (100, 140) 20) [9] eq_refl eq_refl).
Defined.

(** ** Further properties of the game loop *)

Lemma hit_is_not_food (h fpos : Cell) (b : list Cell) :
  in_arena fpos -> ~ In fpos b ->
  cell_in h (removelast b) || outside_arena h = true ->
  h <> fpos.
Proof.
  intros (_ & Hx & Hy) Hoff Hhit E. subst fpos.
  apply orb_true_iff in Hhit. destruct Hhit as [Hs | Hw].
  - apply Hoff. apply removelast_incl. apply cell_in_In. exact Hs.
  - unfold outside_arena, WIDTH, HEIGHT in Hw.
    rewrite !orb_true_iff in Hw. lia.
Qed.

(** The two outcomes of the tick of a running game whose locals satisfy
    [game_inv]: the snake moves, or it moves onto the food and eats. *)
Lemma tick_outcomes (g : Game) (c : Cell) (rest : list Cell)
      (rng : list Z) (g' : Game) (rng' : list Z) :
  game_inv g -> game_over g = false ->
  Snake.body (snake g) = c :: rest ->
  tick g rng = Ok (g', rng') ->
  let d := Snake.direction (snake g) in
  let h := (fst c + fst d * 20, snd c + snd d * 20) in
  let rl := removelast (c :: rest) in
  (h <> Food.position (food g) /\ rng' = rng /\
   g' = mkGame (Snake.mk (h :: rl) d 20) (food g) (score g) (framerate g)
               (cell_in h rl || outside_arena h) (running g)) \/
  (h = Food.position (food g) /\
   cell_in h rl || outside_arena h = false /\
   exists tail food2,
     list_last (h :: rl) = Ok tail /\
     Food.reset_position (food g) (Snake.mk ((h :: rl) ++ [tail]) d 20) rng =
       Ok (food2, rng') /\
     g' = mkGame (Snake.mk ((h :: rl) ++ [tail]) d 20) food2 (score g + 1)
                 (Z.min (framerate g + 1) MAX_FRAMERATE) false (running g)).
Proof.
  intros [I1 I2 I3 I4 I5 I6 I7 I8] Hover Hbody H.
  destruct (tick_running g c rest rng Hover Hbody) as [_ Htick].
  cbv zeta in Htick. rewrite Htick in H. clear Htick. rewrite I2 in H.
  cbv zeta. rewrite Hbody in I6.
  pose proof (hit_is_not_food
                (fst c + fst (Snake.direction (snake g)) * 20,
                 snd c + snd (Snake.direction (snake g)) * 20)
                (Food.position (food g)) (c :: rest) I5 I6) as Hhit.
  remember (removelast (c :: rest)) as rl eqn:Hrl. clear Hrl.
  set (h := (fst c + fst (Snake.direction (snake g)) * 20,
             snd c + snd (Snake.direction (snake g)) * 20)) in *.
  destruct (cell_eqb h (Food.position (food g))) eqn:Heat.
  - right. apply cell_eqb_eq in Heat. split; [exact Heat|].
    assert (Hno : cell_in h rl || outside_arena h = false).
    { destruct (cell_in h rl || outside_arena h); [|reflexivity].
      exfalso. exact (Hhit eq_refl Heat). }
    split; [exact Hno|]. rewrite Hno in H.
    apply bind_inv in H. destruct H as (snake2 & rng1 & Hgrow & H).
    apply lift_inv in Hgrow. destruct Hgrow as [Hgrow ->].
    apply bind_inv in H. destruct H as (food2 & rng2 & Hreset & H).
    apply ret_inv in H. destruct H as [-> ->].
    destruct (grow_nonempty
                (Snake.mk (h :: rl) (Snake.direction (snake g)) 20))
      as (tail & Htail & Hg); [discriminate|].
    rewrite Hg in Hgrow. cbn [Snake.body Snake.direction Snake.size] in Hgrow, Htail.
    assert (Es : snake2 = Snake.mk ((h :: rl) ++ [tail])
                                   (Snake.direction (snake g)) 20)
      by congruence.
    subst snake2. exists tail, food2.
    split; [exact Htail|]. split; [exact Hreset | reflexivity].
  - left. apply cell_eqb_neq in Heat. split; [exact Heat|].
    assert (Eg : g' = mkGame (Snake.mk (h :: rl) (Snake.direction (snake g)) 20)
                             (food g) (score g) (framerate g)
                             (cell_in h rl || outside_arena h) (running g))
      by congruence.
    assert (Er : rng' = rng) by congruence.
    split; [exact Er | exact Eg].
Qed.

Lemma change_direction_unit (s : Snake.t) (d : Z * Z) :
  In (Snake.direction s) unit_vectors -> In d unit_vectors ->
  In (Snake.direction (Snake.change_direction s d)) unit_vectors.
Proof.
  intros Hs Hd.
  destruct (change_direction_cases s d) as [[_ ->] | [_ ->]]; assumption.
Qed.

Lemma collision_tests_same_body (s1 s2 : Snake.t) :
  Snake.body s1 = Snake.body s2 ->
  Snake.is_self_collision s1 = Snake.is_self_collision s2 /\
  Snake.is_wall_collision s1 = Snake.is_wall_collision s2.
Proof.
  intros E. unfold Snake.is_self_collision, Snake.is_wall_collision, Snake.head.
  rewrite E. split; reflexivity.
Qed.

Lemma key_direction_unit (k : Key) (d : Z * Z) :
  key_direction k = Some d -> In d unit_vectors.
Proof.
  destruct k; cbn [key_direction]; intros E; try discriminate E;
    injection E as <-; cbn [unit_vectors In]; auto.
Qed.

Lemma handle_event_key (k : Key) (d : Z * Z) (g : Game) :
  key_direction k = Some d ->
  handle_event (KEYDOWN k) g =
  ret (with_snake g (Snake.change_direction (snake g) d)).
Proof.
  destruct k; cbn [key_direction]; intros E; try discriminate E;
    injection E as <-; reflexivity.
Qed.

Lemma turn_play_inv (g : Game) (d : Z * Z) :
  In d unit_vectors -> play_inv g ->
  play_inv (with_snake g (Snake.change_direction (snake g) d)).
Proof.
  intros Hd [P1 P2 P3 P4 P5].
  destruct (change_direction_keeps (snake g) d) as [Hb _].
  destruct (collision_tests_same_body _ _ Hb) as [Es Ew].
  constructor; cbn [with_snake snake score framerate game_over];
    rewrite ?Hb, ?Es, ?Ew; try assumption.
  apply change_direction_unit; assumption.
Qed.

Lemma fresh_play_inv (f : Food.t) (run : bool) :
  play_inv (mkGame Snake.init f 0 INITIAL_FRAMERATE false run).
Proof.
  constructor; cbn [snake score framerate game_over Snake.init Snake.body
                    Snake.direction tl].
  - left. reflexivity.
  - reflexivity.
  - constructor.
  - intros _. constructor; [|constructor].
    split; [split; [exists 20 | exists 15]; reflexivity|].
    cbn [fst snd]. change (WIDTH / 2) with 400. change (HEIGHT / 2) with 300.
    lia.
  - discriminate.
Qed.

Lemma setup_play_inv (rng : list Z) (g : Game) (rng' : list Z) :
  setup rng = Ok (g, rng') -> play_inv g.
Proof.
  unfold setup. cbv zeta. intros H.
  apply bind_inv in H. destruct H as (f1 & rng1 & _ & Hret).
  apply ret_inv in Hret. destruct Hret as [-> _]. apply fresh_play_inv.
Qed.

Lemma handle_event_play_inv (ev : Event) (g : Game) (rng : list Z)
      (g' : Game) (rng' : list Z) :
  play_inv g -> handle_event ev g rng = Ok (g', rng') -> play_inv g'.
Proof.
  intros Hinv H.
  destruct ev as [|k|].
  - cbn [handle_event] in H. apply ret_inv in H. destruct H as [-> _].
    destruct Hinv as [P1 P2 P3 P4 P5].
    constructor; cbn [snake score framerate game_over]; assumption.
  - destruct (key_direction k) as [d|] eqn:Hk.
    + rewrite (handle_event_key k d g Hk) in H.
      apply ret_inv in H. destruct H as [-> _].
      apply turn_play_inv; [exact (key_direction_unit k d Hk) | exact Hinv].
    + destruct k; try discriminate Hk; cbn [handle_event] in H.
      * destruct (game_over g) eqn:Hover.
        -- destruct (restart_returns_fresh g rng g' rng' Hover)
             as (f1 & -> & _).
           { cbn [handle_event]. rewrite Hover. exact H. }
           apply fresh_play_inv.
        -- apply ret_inv in H. destruct H as [-> _]. exact Hinv.
      * apply ret_inv in H. destruct H as [-> _]. exact Hinv.
  - cbn [handle_event] in H. apply ret_inv in H. destruct H as [-> _].
    exact Hinv.
Qed.

Lemma process_events_play_inv (evs : list Event) :
  forall (g : Game) (rng : list Z) (g' : Game) (rng' : list Z),
  play_inv g -> process_events evs g rng = Ok (g', rng') -> play_inv g'.
Proof.
  induction evs as [|ev evs IH]; intros g rng g' rng' Hinv H;
    cbn [process_events] in H.
  - apply ret_inv in H. destruct H as [-> _]. exact Hinv.
  - apply bind_inv in H. destruct H as (g1 & rng1 & Hev & Hrest).
    apply (IH g1 rng1 g' rng'); [|exact Hrest].
    exact (handle_event_play_inv _ _ _ _ _ Hinv Hev).
Qed.

Lemma in_arena_aligned (c : Cell) : in_arena c -> aligned c.
Proof. intros [H _]. exact H. Qed.

Lemma tick_play_inv (g : Game) (rng : list Z) (g' : Game) (rng' : list Z) :
  game_inv g -> play_inv g -> tick g rng = Ok (g', rng') -> play_inv g'.
Proof.
  intros Hinv Hplay H. destruct (game_over g) eqn:Hover.
  - unfold tick in H. rewrite Hover in H. cbn [negb] in H.
    apply ret_inv in H. destruct H as [-> _]. exact Hplay.
  - destruct (Snake.body (snake g)) as [|c rest] eqn:Hbody;
      [destruct (inv_body g Hinv Hbody)|].
    pose proof (tick_outcomes g c rest rng g' rng' Hinv Hover Hbody H) as Hout.
    cbv zeta in Hout.
    destruct Hplay as [P1 P2 P3 P4 P5]. specialize (P4 Hover).
    rewrite Hbody in P4.
    assert (Hrl : Forall in_arena (removelast (c :: rest))).
    { apply Forall_forall. intros x Hx. apply removelast_incl in Hx.
      rewrite Forall_forall in P4. apply P4. exact Hx. }
    assert (Hal : aligned (fst c + fst (Snake.direction (snake g)) * 20,
                           snd c + snd (Snake.direction (snake g)) * 20)).
    { apply aligned_translate. apply in_arena_aligned.
      inversion P4. assumption. }
    remember (removelast (c :: rest)) as rl eqn:Erl. clear Erl.
    set (h := (fst c + fst (Snake.direction (snake g)) * 20,
               snd c + snd (Snake.direction (snake g)) * 20)) in *.
    destruct Hout as [(Hne & _ & ->) | (Heq & Hno & tail & food2 & Htail & _ & ->)].
    + destruct (collision_tests_cons h rl (Snake.direction (snake g)) 20)
        as (Es & Ew & _).
      constructor; cbn [snake score framerate game_over Snake.body
                        Snake.direction tl]; try assumption.
      * intros Hrun. constructor; [|exact Hrl].
        apply orb_false_iff in Hrun. destruct Hrun as [_ Hrun].
        apply outside_arena_aligned; assumption.
      * intros Hhit. rewrite Es, Ew.
        apply orb_true_iff in Hhit.
        destruct Hhit as [-> | ->]; [left | right]; reflexivity.
    + assert (Hh : in_arena h).
      { rewrite Heq. exact (inv_food_arena g Hinv). }
      assert (Ht : in_arena tail).
      { apply list_last_In in Htail. destruct Htail as [<- | Hin]; [exact Hh|].
        rewrite Forall_forall in Hrl. apply Hrl. exact Hin. }
      constructor; cbn [snake score framerate game_over Snake.body
                        Snake.direction]; try assumption.
      * unfold INITIAL_FRAMERATE, MAX_FRAMERATE in *. lia.
      * cbn [app tl]. apply Forall_app. split; [exact Hrl|].
        constructor; [exact Ht | constructor].
      * intros _. apply Forall_app. split; [constructor; assumption|].
        constructor; [exact Ht | constructor].
      * discriminate.
Qed.

Lemma frame_play_inv (evs : list Event) (g : Game) (rng : list Z)
      (g' : Game) (rng' : list Z) :
  game_inv g -> play_inv g -> frame evs g rng = Ok (g', rng') -> play_inv g'.
Proof.
  intros Hinv Hplay H. unfold frame in H. apply bind_inv in H.
  destruct H as (g1 & rng1 & Hev & Htick).
  apply (tick_play_inv g1 rng1 g' rng'); [| |exact Htick].
  - exact (process_events_inv _ _ _ _ _ Hinv Hev).
  - exact (process_events_play_inv _ _ _ _ _ Hplay Hev).
Qed.

Lemma reachable_play_inv (g : Game) : reachable g -> play_inv g.
Proof.
  induction 1 as [rng g rng' Hsetup | g evs rng g' rng' Hreach IH _ Hframe].
  - exact (setup_play_inv _ _ _ Hsetup).
  - exact (frame_play_inv _ _ _ _ _ (reachable_inv g Hreach) IH Hframe).
Qed.

Lemma three_long_reachable : reachable three_long_game.
Proof.
  apply (main_reachable [[]; []; []] [20; 14; 20; 13; 0; 0] three_long_game []).
  vm_compute. reflexivity.
Qed.

Lemma game_over_reachable : reachable game_over_game.
Proof.
  apply (main_reachable (repeat [] 16) [5; 7] game_over_game []).
  vm_compute. reflexivity.
Qed.

(** X7.  In every reachable state the snake's direction is one of the four
    unit vectors. *)
Theorem direction_always_unit (g : Game) (H : reachable g) :
  In (Snake.direction (snake g)) unit_vectors.
Proof. exact (inv_direction g (reachable_play_inv g H)). Qed.

Lemma direction_always_unit_witness :
  reachable three_long_game /\
  In (Snake.direction (snake three_long_game)) unit_vectors.
Proof.
  split; [exact three_long_reachable|].
  exact (direction_always_unit three_long_game three_long_reachable).
Defined.

(** X8.  In every reachable state the framerate is the score plus the
    initial rate 5, capped at 20; the score is never negative, so the
    framerate stays within [5, 20]. *)
Theorem framerate_follows_score (g : Game) (H : reachable g) :
  framerate g = Z.min (INITIAL_FRAMERATE + score g) MAX_FRAMERATE /\
  0 <= score g /\
  INITIAL_FRAMERATE <= framerate g <= MAX_FRAMERATE.
Proof.
  pose proof (inv_rate_score g (reachable_play_inv g H)) as Hrate.
  destruct (reachable_inv g H) as [I1 I2 I3 I4 I5 I6 I7 I8].
  split; [exact Hrate|]. split; [|exact I8].
  destruct (Snake.body (snake g)); [congruence|]. cbn [length] in I7. lia.
Qed.

Lemma framerate_follows_score_witness :
  reachable three_long_game /\
  framerate three_long_game =
    Z.min (INITIAL_FRAMERATE + score three_long_game) MAX_FRAMERATE /\
  0 <= score three_long_game /\
  INITIAL_FRAMERATE <= framerate three_long_game <= MAX_FRAMERATE.
Proof.
  split; [exact three_long_reachable|].
  exact (framerate_follows_score three_long_game three_long_reachable).
Defined.

(** X9.  In every reachable state all segments behind the head are on grid
    cells of the arena; while the phase is Running the head is too, and
    [is_wall_collision] is false. *)
Theorem running_snake_inside_arena (g : Game) (H : reachable g) :
  Forall in_arena (tl (Snake.body (snake g))) /\
  (game_over g = false ->
   Forall in_arena (Snake.body (snake g)) /\
   Snake.is_wall_collision (snake g) = Ok false).
Proof.
  destruct (reachable_play_inv g H) as [P1 P2 P3 P4 P5].
  pose proof (inv_body g (reachable_inv g H)) as Hne.
  split; [exact P3|]. intros Hrun. specialize (P4 Hrun).
  split; [exact P4|].
  destruct (snake g) as [b d sz]. cbn [Snake.body] in P4, Hne.
  destruct b as [|c rest]; [congruence|].
  destruct (collision_tests_cons c rest d sz) as (_ & -> & _).
  f_equal. inversion P4 as [|x l Hc _]. subst.
  apply outside_arena_aligned; [apply in_arena_aligned|]; exact Hc.
Qed.

Lemma running_snake_inside_arena_witness :
  reachable three_long_game /\
  Forall in_arena (tl (Snake.body (snake three_long_game))) /\
  (game_over three_long_game = false ->
   Forall in_arena (Snake.body (snake three_long_game)) /\
   Snake.is_wall_collision (snake three_long_game) = Ok false).
Proof.
  split; [exact three_long_reachable|].
  exact (running_snake_inside_arena three_long_game three_long_reachable).
Defined.

(** X10.  In every reachable state whose phase is GameOver the snake stands
    where it collided: [is_self_collision] or [is_wall_collision] is true. *)
Theorem game_over_snake_collided (g : Game)
        (H : reachable g) (Hover : game_over g = true) :
  Snake.is_self_collision (snake g) = Ok true \/
  Snake.is_wall_collision (snake g) = Ok true.
Proof. exact (inv_over_collided g (reachable_play_inv g H) Hover). Qed.

Lemma game_over_snake_collided_witness :
  reachable game_over_game /\
  game_over game_over_game = true /\
  (Snake.is_self_collision (snake game_over_game) = Ok true \/
   Snake.is_wall_collision (snake game_over_game) = Ok true).
Proof.
  split; [exact game_over_reachable|]. split; [reflexivity|].
  exact (game_over_snake_collided game_over_game game_over_reachable eq_refl).
Defined.

Lemma handle_event_no_restart (ev : Event) (g : Game) (rng : list Z) :
  ev <> KEYDOWN K_r ->
  exists g',
    handle_event ev g rng = Ok (g', rng) /\
    Snake.body (snake g') = Snake.body (snake g) /\
    food g' = food g /\ score g' = score g /\
    framerate g' = framerate g /\ game_over g' = game_over g.
Proof.
  intros Hev.
  destruct ev as [|k|]; [| |].
  - eexists. split; [reflexivity|]. repeat split.
  - destruct (key_direction k) as [d|] eqn:Hk.
    + rewrite (handle_event_key k d g Hk). eexists. split; [reflexivity|].
      cbn [with_snake snake food score framerate game_over].
      split; [apply change_direction_keeps|]. repeat split.
    + destruct k; try discriminate Hk; [congruence|].
      eexists. split; [reflexivity|]. repeat split.
  - eexists. split; [reflexivity|]. repeat split.
Qed.

Lemma process_events_no_restart (evs : list Event) :
  forall (g : Game) (rng : list Z),
  ~ In (KEYDOWN K_r) evs ->
  exists g',
    process_events evs g rng = Ok (g', rng) /\
    Snake.body (snake g') = Snake.body (snake g) /\
    food g' = food g /\ score g' = score g /\
    framerate g' = framerate g /\ game_over g' = game_over g.
Proof.
  induction evs as [|ev evs IH]; intros g rng Hno.
  - exists g. split; [reflexivity|]. repeat split.
  - destruct (handle_event_no_restart ev g rng) as (g1 & H1 & B1 & F1 & S1 & R1 & O1).
    { intros ->. apply Hno. left. reflexivity. }
    destruct (IH g1 rng) as (g2 & H2 & B2 & F2 & S2 & R2 & O2).
    { intros Hin. apply Hno. right. exact Hin. }
    exists g2. cbn [process_events]. rewrite (bind_ok _ _ _ _ _ H1).
    split; [exact H2|]. repeat split; congruence.
Qed.

(** X11.  In GameOver a frame whose events hold no restart key returns,
    reads no draw and moves nothing: body, food, score, framerate and phase
    are as before (only the direction and [running] can change). *)
Theorem game_over_frame_frozen
        (g : Game) (evs : list Event) (rng : list Z)
        (Hover : game_over g = true) (Hno : ~ In (KEYDOWN K_r) evs) :
  exists g',
    frame evs g rng = Ok (g', rng) /\
    Snake.body (snake g') = Snake.body (snake g) /\
    food g' = food g /\ score g' = score g /\
    framerate g' = framerate g /\ game_over g' = true.
Proof.
  destruct (process_events_no_restart evs g rng Hno)
    as (g1 & H1 & B1 & F1 & S1 & R1 & O1).
  exists g1. unfold frame. rewrite (bind_ok _ _ _ _ _ H1).
  rewrite Hover in O1. unfold tick. rewrite O1. cbn [negb].
  split; [reflexivity|]. repeat split; assumption.
Qed.

Lemma game_over_frame_frozen_witness :
  game_over game_over_game = true /\
  ~ In (KEYDOWN K_r) [KEYDOWN K_DOWN; OTHER; KEYDOWN K_LEFT] /\
  exists g',
    frame [KEYDOWN K_DOWN; OTHER; KEYDOWN K_LEFT] game_over_game [3; 4] =
      Ok (g', [3; 4]) /\
    Snake.body (snake g') = Snake.body (snake game_over_game) /\
    food g' = food game_over_game /\ score g' = score game_over_game /\
    framerate g' = framerate game_over_game /\ game_over g' = true.
Proof.
  assert (Hno : ~ In (KEYDOWN K_r) [KEYDOWN K_DOWN; OTHER; KEYDOWN K_LEFT]).
  { intros [E | [E | [E | []]]]; discriminate E. }
  split; [reflexivity|]. split; [exact Hno|].
  exact (game_over_frame_frozen
           game_over_game [KEYDOWN K_DOWN; OTHER; KEYDOWN K_LEFT] [3; 4]
           eq_refl Hno).
Defined.

(** X12.  A running tick that puts the head on the food (from a state of
    [main] after its events) eats: the score grows by 1, the framerate by 1
    up to 20, the body is the moved body with its last segment doubled, the
    phase stays Running, and the food moves to another grid cell of the
    arena, off the grown body. *)
Theorem eating_tick
        (g : Game) (evs : list Event) (rng : list Z)
        (g1 : Game) (rng1 : list Z) (snake1 : Snake.t)
        (g' : Game) (rng' : list Z)
        (Hreach : reachable g)
        (Hevs : process_events evs g rng = Ok (g1, rng1))
        (Hphase : game_over g1 = false)
        (Hmove : Snake.move (snake g1) = Ok snake1)
        (Hfood : Snake.head snake1 = Ok (Food.position (food g1)))
        (Htick : tick g1 rng1 = Ok (g', rng')) :
  score g' = score g1 + 1 /\
  framerate g' = Z.min (framerate g1 + 1) MAX_FRAMERATE /\
  game_over g' = false /\
  (exists tail,
     list_last (Snake.body snake1) = Ok tail /\
     Snake.body (snake g') = Snake.body snake1 ++ [tail]) /\
  Food.position (food g') <> Food.position (food g1) /\
  ~ In (Food.position (food g')) (Snake.body (snake g')) /\
  in_arena (Food.position (food g')).
Proof.
  assert (Hinv : game_inv g1).
  { exact (process_events_inv _ _ _ _ _ (reachable_inv g Hreach) Hevs). }
  pose proof (tick_inv g1 rng1 g' rng' Hinv Htick) as Hinv'.
  destruct (Snake.body (snake g1)) as [|c rest] eqn:Hbody;
    [destruct (inv_body g1 Hinv Hbody)|].
  pose proof (tick_outcomes g1 c rest rng1 g' rng' Hinv Hphase Hbody Htick)
    as Hout.
  destruct (tick_running g1 c rest rng1 Hphase Hbody) as [Hmove' _].
  cbv zeta in Hout, Hmove'. rewrite (inv_snake_size g1 Hinv) in Hmove'.
  remember (removelast (c :: rest)) as rl eqn:Erl. clear Erl.
  set (h := (fst c + fst (Snake.direction (snake g1)) * 20,
             snd c + snd (Snake.direction (snake g1)) * 20)) in *.
  assert (Es : snake1 = Snake.mk (h :: rl) (Snake.direction (snake g1)) 20)
    by congruence.
  subst snake1. cbn [Snake.head Snake.body] in Hfood.
  assert (Eh : h = Food.position (food g1)) by congruence.
  destruct Hout as [(Hne & _) | (_ & _ & tail & food2 & Htail & _ & Eg)];
    [contradiction|].
  pose proof (inv_food_off g' Hinv') as Hoff.
  pose proof (inv_food_arena g' Hinv') as Har.
  subst g'. cbn [snake food score framerate game_over Snake.body] in *.
  split; [reflexivity|]. split; [reflexivity|]. split; [reflexivity|].
  split; [exists tail; split; [exact Htail | reflexivity]|].
  split; [|split; assumption].
  intros E. apply Hoff. rewrite E, <- Eh. left. reflexivity.
Qed.

Lemma second_meal_reachable : reachable second_meal_game.
Proof.
  apply (main_reachable [[]] [20; 14; 20; 13] second_meal_game []).
  vm_compute. reflexivity.
Qed.

Lemma eating_tick_witness :
  reachable second_meal_game /\
  tick second_meal_game [0; 0] = Ok (after_second_meal_game, []) /\
  score after_second_meal_game = score second_meal_game + 1 /\
  framerate after_second_meal_game =
    Z.min (framerate second_meal_game + 1) MAX_FRAMERATE /\
  game_over after_second_meal_game = false /\
  (exists tail,
     list_last (Snake.body (Snake.mk [(400, 260); (400, 280)] (0, -1) 20)) =
       Ok tail /\
     Snake.body (snake after_second_meal_game) =
       Snake.body (Snake.mk [(400, 260); (400, 280)] (0, -1) 20) ++ [tail]) /\
  Food.position (food after_second_meal_game) <>
    Food.position (food second_meal_game) /\
  ~ In (Food.position (food after_second_meal_game))
       (Snake.body (snake after_second_meal_game)) /\
  in_arena (Food.position (food after_second_meal_game)).
Proof.
  assert (Htick : tick second_meal_game [0; 0] =
                  Ok (after_second_meal_game, [])).
  { vm_compute. reflexivity. }
  split; [exact second_meal_reachable|]. split; [exact Htick|].
  exact (eating_tick second_meal_game [] [0; 0] second_meal_game [0; 0]
                     (Snake.mk [(400, 260); (400, 280)] (0, -1) 20)
                     after_second_meal_game []
                     second_meal_reachable eq_refl eq_refl eq_refl eq_refl
                     Htick).
Defined.

Lemma handle_event_running (ev : Event) (g : Game) (rng : list Z)
      (g' : Game) (rng' : list Z) :
  handle_event ev g rng = Ok (g', rng') ->
  running g' = match ev with QUIT => false | _ => running g end.
Proof.
  intros H. destruct ev as [|k|].
  - cbn [handle_event] in H. apply ret_inv in H. destruct H as [-> _].
    reflexivity.
  - destruct (key_direction k) as [d|] eqn:Hk.
    + rewrite (handle_event_key k d g Hk) in H.
      apply ret_inv in H. destruct H as [-> _]. reflexivity.
    + destruct k; try discriminate Hk; cbn [handle_event] in H.
      * destruct (game_over g) eqn:Hover.
        -- destruct (restart_returns_fresh g rng g' rng' Hover)
             as (f1 & -> & _).
           { cbn [handle_event]. rewrite Hover. exact H. }
           reflexivity.
        -- apply ret_inv in H. destruct H as [-> _]. reflexivity.
      * apply ret_inv in H. destruct H as [-> _]. reflexivity.
  - cbn [handle_event] in H. apply ret_inv in H. destruct H as [-> _].
    reflexivity.
Qed.

Lemma process_events_running (evs : list Event) :
  forall (g : Game) (rng : list Z) (g' : Game) (rng' : list Z),
  process_events evs g rng = Ok (g', rng') ->
  (In QUIT evs \/ running g = false -> running g' = false) /\
  (~ In QUIT evs -> running g' = running g).
Proof.
  induction evs as [|ev evs IH]; intros g rng g' rng' H;
    cbn [process_events] in H.
  - apply ret_inv in H. destruct H as [-> _]. split.
    + intros [[] | E]. exact E.
    + reflexivity.
  - apply bind_inv in H. destruct H as (g1 & rng1 & Hev & Hrest).
    apply handle_event_running in Hev.
    destruct (IH g1 rng1 g' rng' Hrest) as [IH1 IH2]. split.
    + intros [[-> | Hin] | Hstop].
      * apply IH1. right. exact Hev.
      * apply IH1. left. exact Hin.
      * apply IH1. right. rewrite Hev. destruct ev; [reflexivity | |];
          exact Hstop.
    + intros Hno. rewrite IH2.
      * rewrite Hev. destruct ev; [|reflexivity|reflexivity].
        exfalso. apply Hno. left. reflexivity.
      * intros Hin. apply Hno. right. exact Hin.
Qed.

Lemma tick_running_flag (g : Game) (rng : list Z) (g' : Game) (rng' : list Z) :
  tick g rng = Ok (g', rng') -> running g' = running g.
Proof.
  unfold tick. destruct (game_over g); cbn [negb]; intros H.
  - apply ret_inv in H. destruct H as [-> _]. reflexivity.
  - apply bind_inv in H. destruct H as (snake1 & r1 & _ & H).
    apply bind_inv in H. destruct H as (self_hit & r2 & _ & H).
    apply bind_inv in H. destruct H as (hit & r3 & _ & H).
    apply bind_inv in H. destruct H as (h & r4 & _ & H).
    destruct (cell_eqb h (Food.position (food g))).
    + apply bind_inv in H. destruct H as (snake2 & r5 & _ & H).
      apply bind_inv in H. destruct H as (food2 & r6 & _ & H).
      apply ret_inv in H. destruct H as [-> _]. reflexivity.
    + apply ret_inv in H. destruct H as [-> _]. reflexivity.
Qed.

Lemma main_loop_stopped (frames : list (list Event)) (g : Game) (rng : list Z) :
  running g = false -> main_loop frames g rng = Ok (g, rng).
Proof.
  intros Hstop. destruct frames as [|evs frames]; cbn [main_loop];
    [reflexivity|]. rewrite Hstop. reflexivity.
Qed.

Lemma stop_running_idem (g : Game) : stop_running (stop_running g) = stop_running g.
Proof. reflexivity. Qed.

Lemma stop_running_stopped (g : Game) : running g = false -> stop_running g = g.
Proof. destruct g as [s f sc fr go run]. cbn [running]. intros ->. reflexivity. Qed.

Lemma on_state_bind {A : Type} (f : Game -> Game) (m : M A)
      (k1 k2 : A -> M Game) (rng : list Z) :
  (forall a r, on_state f (k1 a r) = on_state f (k2 a r)) ->
  on_state f (bind m k1 rng) = on_state f (bind m k2 rng).
Proof.
  intros H. unfold bind. destruct (m rng) as [[a r]| |]; [apply H | |];
    reflexivity.
Qed.

(** The handler reads [running] only to pass it on: two sets of locals
    that differ in [running] alone give results that differ in [running]
    alone. *)
Lemma handle_event_stop (ev : Event) (g1 g2 : Game) (rng : list Z) :
  stop_running g1 = stop_running g2 ->
  on_state stop_running (handle_event ev g1 rng) =
  on_state stop_running (handle_event ev g2 rng).
Proof.
  destruct g1 as [s1 f1 sc1 fr1 go1 run1], g2 as [s2 f2 sc2 fr2 go2 run2].
  intros E. unfold stop_running in E.
  cbn [snake food score framerate game_over] in E.
  injection E as <- <- <- <- <-.
  destruct ev as [|[| | | | |]|]; cbn [handle_event]; try reflexivity.
  cbn [game_over running]. destruct go1; [|reflexivity].
  cbv zeta. apply on_state_bind. intros f r. reflexivity.
Qed.

Lemma tick_stop (g1 g2 : Game) (rng : list Z) :
  stop_running g1 = stop_running g2 ->
  on_state stop_running (tick g1 rng) = on_state stop_running (tick g2 rng).
Proof.
  destruct g1 as [s1 f1 sc1 fr1 go1 run1], g2 as [s2 f2 sc2 fr2 go2 run2].
  intros E. unfold stop_running in E.
  cbn [snake food score framerate game_over] in E.
  injection E as <- <- <- <- <-.
  unfold tick. cbn [snake food score framerate game_over running].
  destruct go1; cbn [negb]; [reflexivity|].
  apply on_state_bind. intros snake1 r1.
  apply on_state_bind. intros self_hit r2.
  apply on_state_bind. intros hit r3.
  apply on_state_bind. intros h r4.
  destruct (cell_eqb h (Food.position f1)); [|reflexivity].
  apply on_state_bind. intros snake2 r5.
  apply on_state_bind. intros food2 r6. reflexivity.
Qed.

Lemma process_events_without_quit (evs : list Event) :
  forall (g1 g2 : Game) (rng : list Z),
  stop_running g1 = stop_running g2 ->
  on_state stop_running (process_events evs g1 rng) =
  on_state stop_running (process_events (without_quit evs) g2 rng).
Proof.
  induction evs as [|ev evs IH]; intros g1 g2 rng E.
  - cbn [without_quit filter process_events]. unfold ret, on_state.
    rewrite E. reflexivity.
  - assert (Hstep : forall ga gb,
              stop_running ga = stop_running gb ->
              on_state stop_running
                (bind (handle_event ev ga) (process_events evs) rng) =
              on_state stop_running
                (bind (handle_event ev gb)
                      (process_events (without_quit evs)) rng)).
    { intros ga gb Eab. pose proof (handle_event_stop ev ga gb rng Eab) as Hev.
      unfold bind.
      destruct (handle_event ev ga rng) as [[a1 r1]| |],
               (handle_event ev gb rng) as [[a2 r2]| |];
        cbn [on_state] in Hev; try discriminate Hev; try reflexivity.
      - assert (Ea : stop_running a1 = stop_running a2) by congruence.
        assert (Er : r1 = r2) by congruence.
        subst r2. apply IH. exact Ea.
      - exact Hev. }
    destruct ev as [|k|].
    + change (without_quit (QUIT :: evs)) with (without_quit evs).
      cbn [process_events handle_event]. unfold bind at 1, ret at 1.
      apply IH. rewrite <- E. apply stop_running_idem.
    + change (without_quit (KEYDOWN k :: evs))
        with (KEYDOWN k :: without_quit evs).
      cbn [process_events]. apply Hstep. exact E.
    + change (without_quit (OTHER :: evs)) with (OTHER :: without_quit evs).
      cbn [process_events]. apply Hstep. exact E.
Qed.

Lemma frame_without_quit (evs : list Event) (g : Game) (rng : list Z) :
  on_state stop_running (frame evs g rng) =
  on_state stop_running (frame (without_quit evs) g rng).
Proof.
  pose proof (process_events_without_quit evs g g rng eq_refl) as Hev.
  unfold frame, bind.
  destruct (process_events evs g rng) as [[a1 r1]| |],
           (process_events (without_quit evs) g rng) as [[a2 r2]| |];
    cbn [on_state] in Hev; try discriminate Hev; try reflexivity.
  - assert (Ea : stop_running a1 = stop_running a2) by congruence.
    assert (Er : r1 = r2) by congruence.
    subst r2. apply tick_stop. exact Ea.
  - exact Hev.
Qed.

(** X13.  A [QUIT] event only clears [running].  The frame that reads it
    gives what the same frame gives without its [QUIT] events (every other
    event is handled and the tick runs as usual), with [running] false;
    the loop ends with that frame and no later frame is run. *)
Theorem quit_ends_loop_after_frame
        (g : Game) (evs : list Event) (frames : list (list Event))
        (rng : list Z)
        (Hrun : running g = true) (Hquit : In QUIT evs) :
  main_loop (evs :: frames) g rng = frame evs g rng /\
  frame evs g rng =
    on_state stop_running (frame (without_quit evs) g rng) /\
  (forall g' rng', frame evs g rng = Ok (g', rng') -> running g' = false).
Proof.
  assert (Hstop : forall g' rng',
            frame evs g rng = Ok (g', rng') -> running g' = false).
  { intros g' rng' H. unfold frame in H. apply bind_inv in H.
    destruct H as (g1 & rng1 & Hev & Htick).
    rewrite (tick_running_flag _ _ _ _ Htick).
    apply (proj1 (process_events_running evs g rng g1 rng1 Hev)).
    left. exact Hquit. }
  split; [|split; [|exact Hstop]].
  - cbn [main_loop]. rewrite Hrun. unfold bind at 1.
    destruct (frame evs g rng) as [[g' rng']| |] eqn:Hframe; try reflexivity.
    apply main_loop_stopped. exact (Hstop g' rng' eq_refl).
  - rewrite <- frame_without_quit.
    destruct (frame evs g rng) as [[g' rng']| |] eqn:Hframe; try reflexivity.
    cbn [on_state]. rewrite (stop_running_stopped g' (Hstop g' rng' eq_refl)).
    reflexivity.
Qed.

Lemma quit_ends_loop_after_frame_witness :
  running top_row_game = true /\
  In QUIT [KEYDOWN K_LEFT; QUIT; KEYDOWN K_DOWN] /\
  main_loop [[KEYDOWN K_LEFT; QUIT; KEYDOWN K_DOWN]; []; []] top_row_game [] =
    frame [KEYDOWN K_LEFT; QUIT; KEYDOWN K_DOWN] top_row_game [] /\
  frame [KEYDOWN K_LEFT; QUIT; KEYDOWN K_DOWN] top_row_game [] =
    on_state stop_running
      (frame (without_quit [KEYDOWN K_LEFT; QUIT; KEYDOWN K_DOWN])
             top_row_game []) /\
  frame (without_quit [KEYDOWN K_LEFT; QUIT; KEYDOWN K_DOWN]) top_row_game [] =
    Ok (mkGame (Snake.mk [(400, 20)] (0, 1) 20) (Food.mk (100, 140) 20)
               0 5 false true, []) /\
  frame [KEYDOWN K_LEFT; QUIT; KEYDOWN K_DOWN] top_row_game [] =
    Ok (mkGame (Snake.mk [(400, 20)] (0, 1) 20) (Food.mk (100, 140) 20)
               0 5 false false, []).
Proof.
  assert (Hquit : In QUIT [KEYDOWN K_LEFT; QUIT; KEYDOWN K_DOWN]).
  { right. left. reflexivity. }
  pose proof (quit_ends_loop_after_frame
                top_row_game [KEYDOWN K_LEFT; QUIT; KEYDOWN K_DOWN] [[]; []] []
                (eq_refl true) Hquit) as (Hloop & Hsame & _).
  split; [reflexivity|]. split; [exact Hquit|].
  split; [exact Hloop|]. split; [exact Hsame|].
  split; vm_compute; reflexivity.
Defined.

(** X14.  Within one frame the guard of [change_direction] does not stop a
    reversal made of two key presses. In a reachable Running state whose
    body has at least three segments, the second one step behind the head: a
    key for a perpendicular direction followed by the key for the reverse
    direction turns the snake around, the tick puts the head on the second
    segment's cell, and the game is over by self-collision. *)
Theorem double_turn_hits_neck
        (g : Game) (h n : Cell) (rest : list Cell) (k1 k2 : Key)
        (p : Z * Z) (rng : list Z)
        (Hreach : reachable g)
        (Hphase : game_over g = false)
        (Hbody : Snake.body (snake g) = h :: n :: rest)
        (Hlong : rest <> [])
        (Hneck : n = (fst h - fst (Snake.direction (snake g)) * 20,
                      snd h - snd (Snake.direction (snake g)) * 20))
        (Hk1 : key_direction k1 = Some p)
        (Hside : p <> Snake.direction (snake g) /\
                 p <> negation (Snake.direction (snake g)))
        (Hk2 : key_direction k2 = Some (negation (Snake.direction (snake g)))) :
  exists g',
    frame [KEYDOWN k1; KEYDOWN k2] g rng = Ok (g', rng) /\
    Snake.direction (snake g') = negation (Snake.direction (snake g)) /\
    Snake.head (snake g') = Ok n /\
    Snake.is_self_collision (snake g') = Ok true /\
    game_over g' = true.
Proof.
  destruct Hside as [Hp1 Hp2].
  pose proof (reachable_inv g Hreach) as Hinv.
  destruct g as [[b d sz] f sc fr go run].
  cbn [snake game_over Snake.body Snake.direction] in *.
  pose proof (inv_snake_size _ Hinv) as Hsz. cbn [snake Snake.size] in Hsz.
  subst b sz go.
  set (g0 := mkGame (Snake.mk (h :: n :: rest) d 20) f sc fr false run) in *.
  set (g2 := mkGame (Snake.mk (h :: n :: rest) (negation d) 20) f sc fr false run).
  assert (Hevs : process_events [KEYDOWN k1; KEYDOWN k2] g0 rng = Ok (g2, rng)).
  { cbn [process_events]. rewrite (handle_event_key k1 p g0 Hk1).
    unfold bind at 1, ret at 1.
    rewrite (handle_event_key k2 (negation d) _ Hk2).
    unfold bind at 1, ret at 1. unfold ret. f_equal. f_equal.
    unfold g0, g2, with_snake. cbn [snake food score framerate game_over running].
    f_equal.
    destruct (change_direction_cases (Snake.mk (h :: n :: rest) d 20) p)
      as [[E _] | [_ ->]]; [contradiction|].
    cbn [Snake.body Snake.size].
    destruct (change_direction_cases (Snake.mk (h :: n :: rest) p 20)
                                     (negation d))
      as [[E _] | [_ ->]]; [|reflexivity].
    exfalso. apply Hp1. cbn [Snake.direction] in E. unfold negation in E.
    destruct p as [px py], d as [dx dy]. cbn [fst snd] in E.
    injection E as Ex Ey. f_equal; lia. }
  pose proof (process_events_inv _ _ _ _ _ Hinv Hevs) as Hinv2.
  destruct (tick_running g2 h (n :: rest) rng eq_refl eq_refl) as [_ Htick].
  cbv zeta in Htick.
  assert (Hrl : removelast (h :: n :: rest) = h :: n :: removelast rest).
  { destruct rest as [|r rest']; [congruence|]. reflexivity. }
  rewrite Hrl in Htick.
  change (Snake.direction (snake g2)) with (negation d) in Htick.
  change (Snake.size (snake g2)) with 20 in Htick.
  assert (En : (fst h + fst (negation d) * 20, snd h + snd (negation d) * 20) = n).
  { rewrite Hneck. unfold negation. cbn [fst snd]. f_equal; lia. }
  rewrite En in Htick.
  assert (Hself : cell_in n (h :: n :: removelast rest) = true).
  { apply cell_in_In. right. left. reflexivity. }
  rewrite Hself in Htick. cbn [orb] in Htick.
  assert (Hnf : cell_eqb n (Food.position (food g2)) = false).
  { apply cell_eqb_neq. intros E. apply (inv_food_off g2 Hinv2).
    rewrite <- E. right. left. reflexivity. }
  rewrite Hnf in Htick.
  eexists. split.
  - unfold frame. rewrite (bind_ok _ _ _ _ _ Hevs). exact Htick.
  - cbn [snake game_over Snake.direction Snake.head Snake.body].
    split; [reflexivity|]. split; [reflexivity|]. split; [|reflexivity].
    unfold Snake.is_self_collision. cbn [Snake.head Snake.body rbind tl].
    rewrite Hself. reflexivity.
Qed.

Lemma double_turn_hits_neck_witness :
  reachable three_long_game /\
  frame [KEYDOWN K_LEFT; KEYDOWN K_DOWN] three_long_game [] =
    Ok (mkGame (Snake.mk [(400, 260); (400, 240); (400, 260)] (0, 1) 20)
               (Food.mk (0, 0) 20) 2 7 true true, []) /\
  exists g',
    frame [KEYDOWN K_LEFT; KEYDOWN K_DOWN] three_long_game [] = Ok (g', []) /\
    Snake.direction (snake g') =
      negation (Snake.direction (snake three_long_game)) /\
    Snake.head (snake g') = Ok (400, 260) /\
    Snake.is_self_collision (snake g') = Ok true /\
    game_over g' = true.
Proof.
  assert (Hbody : Snake.body (snake three_long_game) =
                  [(400, 240); (400, 260); (400, 280)]).
  { reflexivity. }
  assert (Hlong : [(400, 280)] <> ([] : list Cell)).
  { discriminate. }
  assert (Hneck : (400, 260) =
                  (fst (400, 240) -
                   fst (Snake.direction (snake three_long_game)) * 20,
                   snd (400, 240) -
                   snd (Snake.direction (snake three_long_game)) * 20)).
  { vm_compute. reflexivity. }
  assert (Hk1 : key_direction K_LEFT = Some (-1, 0)).
  { reflexivity. }
  assert (Hside : (-1, 0) <> Snake.direction (snake three_long_game) /\
                  (-1, 0) <> negation (Snake.direction (snake three_long_game))).
  { split; discriminate. }
  assert (Hk2 : key_direction K_DOWN =
                Some (negation (Snake.direction (snake three_long_game)))).
  { vm_compute. reflexivity. }
  split; [exact three_long_reachable|].
  split; [vm_compute; reflexivity|].
  exact (double_turn_hits_neck
           three_long_game (400, 240) (400, 260) [(400, 280)] K_LEFT K_DOWN
           (-1, 0) []
           three_long_reachable (eq_refl false) Hbody Hlong Hneck
           Hk1 Hside Hk2).
Defined.

(** ** Drawing *)

Lemma snake_draw_inv (s : Snake.t) (col : Color) (r : Rect) :
  In (col, r) (Snake.draw s) ->
  exists seg,
    In seg (Snake.body s) /\ col = GREEN /\
    r = mkRect (fst seg + 1) (snd seg + 1) (Snake.size s - 2) (Snake.size s - 2).
Proof.
  unfold Snake.draw. intros H. apply in_map_iff in H.
  destruct H as (seg & E & Hin). exists seg. injection E as <- <-.
  split; [exact Hin|]. split; reflexivity.
Qed.

Lemma food_draw_inv (f : Food.t) (col : Color) (r : Rect) :
  In (col, r) (Food.draw f) ->
  col = RED /\
  r = mkRect (fst (Food.position f)) (snd (Food.position f))
             (Food.size f) (Food.size f).
Proof.
  unfold Food.draw. intros [E | []]. injection E as <- <-.
  split; reflexivity.
Qed.

(** X15.  In every reachable Running state, each rectangle that the frame
    draws for the snake and for the food paints only pixels of the 800 x 600
    surface. *)
Theorem drawn_rectangles_on_surface
        (g : Game) (H : reachable g) (Hrun : game_over g = false) :
  forall col r px py,
    In (col, r) (draw_entities g) -> covers r px py -> on_surface px py.
Proof.
  intros col r px py Hin Hcov.
  destruct (reachable_inv g H) as [I1 I2 I3 I4 I5 I6 I7 I8].
  pose proof (inv_running_head g (reachable_play_inv g H) Hrun) as Hbody.
  unfold draw_entities in Hin. apply in_app_iff in Hin.
  unfold covers in Hcov. unfold on_surface, WIDTH, HEIGHT.
  destruct Hin as [Hs | Hf].
  - apply snake_draw_inv in Hs. destruct Hs as (seg & Hseg & _ & ->).
    rewrite Forall_forall in Hbody. destruct (Hbody seg Hseg) as (_ & Bx & By_).
    rewrite I2 in Hcov. cbn [left top width height] in Hcov. lia.
  - apply food_draw_inv in Hf. destruct Hf as (_ & ->).
    destruct I5 as (_ & Bx & By_).
    rewrite I3 in Hcov. cbn [left top width height] in Hcov. lia.
Qed.

Lemma drawn_rectangles_on_surface_witness :
  reachable three_long_game /\
  game_over three_long_game = false /\
  forall col r px py,
    In (col, r) (draw_entities three_long_game) ->
    covers r px py -> on_surface px py.
Proof.
  split; [exact three_long_reachable|]. split; [reflexivity|].
  exact (drawn_rectangles_on_surface three_long_game three_long_reachable
                                     eq_refl).
Defined.

(** X16.  In every reachable state the snake is drawn green and the food
    red, and no pixel is painted by both: the food's square and the snake's
    squares do not meet. *)
Theorem food_square_clear_of_snake (g : Game) (H : reachable g) :
  forall col1 r1 col2 r2 px py,
    In (col1, r1) (Snake.draw (snake g)) ->
    In (col2, r2) (Food.draw (food g)) ->
    col1 = GREEN /\ col2 = RED /\
    ~ (covers r1 px py /\ covers r2 px py).
Proof.
  intros col1 r1 col2 r2 px py Hs Hf.
  destruct (reachable_inv g H) as [I1 I2 I3 I4 I5 I6 I7 I8].
  apply snake_draw_inv in Hs. destruct Hs as (seg & Hseg & -> & ->).
  apply food_draw_inv in Hf. destruct Hf as (-> & ->).
  split; [reflexivity|]. split; [reflexivity|].
  intros [C1 C2]. unfold covers in C1, C2.
  rewrite I2 in C1. rewrite I3 in C2. cbn [left top width height] in C1, C2.
  rewrite Forall_forall in I4. destruct (I4 seg Hseg) as [[a Ha] [b Hb]].
  destruct I5 as ([[fa Hfa] [fb Hfb]] & _).
  apply I6. replace (Food.position (food g)) with seg; [exact Hseg|].
  destruct seg as [sx sy], (Food.position (food g)) as [fx fy].
  cbn [fst snd] in *. f_equal; lia.
Qed.

Lemma food_square_clear_of_snake_witness :
  reachable three_long_game /\
  forall col1 r1 col2 r2 px py,
    In (col1, r1) (Snake.draw (snake three_long_game)) ->
    In (col2, r2) (Food.draw (food three_long_game)) ->
    col1 = GREEN /\ col2 = RED /\
    ~ (covers r1 px py /\ covers r2 px py).
Proof.
  split; [exact three_long_reachable|].
  exact (food_square_clear_of_snake three_long_game three_long_reachable).
Defined.

(** ** The whole program *)

Lemma main_loop_never_raises (frames : list (list Event)) :
  forall (g : Game) (rng : list Z) (e : exn),
  reachable g -> main_loop frames g rng <> Raise e.
Proof.
  induction frames as [|evs frames IH]; intros g rng e Hreach;
    cbn [main_loop]; [discriminate|].
  destruct (running g) eqn:Hrun; [|discriminate].
  apply bind_never_raises.
  - intros e'. apply frame_never_raises. exact Hreach.
  - intros g1 rng1 Hframe e'. apply IH.
    exact (reach_frame _ _ _ _ _ Hreach Hrun Hframe).
Qed.

(** X17.  [main] never raises, whatever the events and the draws: it returns
    the locals of the last frame run, or a food placement is still sampling
    when the draws run out. *)
Theorem main_returns_or_starves (frames : list (list Event)) (rng : list Z) :
  (exists g rng', main frames rng = Ok (g, rng') /\ reachable g) \/
  main frames rng = Starved.
Proof.
  destruct (main frames rng) as [[g rng']|e|] eqn:Hmain.
  - left. exists g, rng'. split; [reflexivity|].
    exact (main_reachable frames rng g rng' Hmain).
  - exfalso. revert Hmain. unfold main. apply bind_never_raises.
    + intros e'. unfold setup. cbv zeta. apply bind_never_raises.
      * intros e''. apply reset_position_never_raises. reflexivity.
      * intros f1 rng1 _ e''. discriminate.
    + intros g0 rng0 Hsetup e'. apply main_loop_never_raises.
      exact (reach_setup _ _ _ Hsetup).
  - right. reflexivity.
Qed.

Lemma tick_still_running (g : Game) (rng : list Z) (g' : Game) (rng' : list Z) :
  game_inv g -> tick g rng = Ok (g', rng') -> game_over g' = false ->
  game_over g = false /\
  Snake.direction (snake g') = Snake.direction (snake g) /\
  exists c0,
    Snake.head (snake g) = Ok c0 /\
    Snake.head (snake g') =
      Ok (fst c0 + fst (Snake.direction (snake g)) * 20,
          snd c0 + snd (Snake.direction (snake g)) * 20).
Proof.
  intros Hinv H Hrun. destruct (game_over g) eqn:Hover.
  - unfold tick in H. rewrite Hover in H. cbn [negb] in H.
    apply ret_inv in H. destruct H as [-> _]. congruence.
  - split; [reflexivity|].
    destruct (Snake.body (snake g)) as [|c rest] eqn:Hbody;
      [destruct (inv_body g Hinv Hbody)|].
    pose proof (tick_outcomes g c rest rng g' rng' Hinv Hover Hbody H) as Hout.
    cbv zeta in Hout.
    assert (Hhead : Snake.head (snake g) = Ok c).
    { unfold Snake.head. rewrite Hbody. reflexivity. }
    remember (removelast (c :: rest)) as rl eqn:Erl. clear Erl.
    destruct Hout as [(_ & _ & ->) | (_ & _ & tail & food2 & _ & _ & ->)];
      (split; [reflexivity|]); exists c; (split; [exact Hhead | reflexivity]).
Qed.

Lemma idle_frame_game_over (g : Game) (rng : list Z) :
  game_over g = true -> frame [] g rng = Ok (g, rng).
Proof.
  intros E. unfold frame. cbn [process_events].
  unfold bind, ret, tick. rewrite E. reflexivity.
Qed.

Lemma idle_frames_keep_game_over (k : nat) :
  forall (g : Game) (rng : list Z) (g' : Game) (rng' : list Z),
  game_over g = true ->
  main_loop (repeat [] k) g rng = Ok (g', rng') -> game_over g' = true.
Proof.
  induction k as [|k IH]; intros g rng g' rng' E H; cbn [repeat main_loop] in H.
  - apply ret_inv in H. destruct H as [-> _]. exact E.
  - destruct (running g).
    + rewrite (bind_ok _ _ _ _ _ (idle_frame_game_over g rng E)) in H.
      exact (IH g rng g' rng' E H).
    + apply ret_inv in H. destruct H as [-> _]. exact E.
Qed.

Lemma idle_frames_still_running (k : nat) :
  forall (g : Game) (rng : list Z) (g' : Game) (rng' : list Z),
  game_inv g -> running g = true ->
  main_loop (repeat [] k) g rng = Ok (g', rng') ->
  game_over g' = false ->
  Snake.direction (snake g') = Snake.direction (snake g) /\
  exists c0,
    Snake.head (snake g) = Ok c0 /\
    Snake.head (snake g') =
      Ok (fst c0 + Z.of_nat k * (fst (Snake.direction (snake g)) * 20),
          snd c0 + Z.of_nat k * (snd (Snake.direction (snake g)) * 20)).
Proof.
  induction k as [|k IH]; intros g rng g' rng' Hinv Hrun H Hlive.
  - cbn [repeat main_loop] in H. apply ret_inv in H. destruct H as [-> _].
    split; [reflexivity|].
    destruct (Snake.body (snake g)) as [|c rest] eqn:Hbody;
      [destruct (inv_body g Hinv Hbody)|].
    exists c. unfold Snake.head. rewrite Hbody.
    split; [reflexivity|]. destruct c as [x y]. cbn [fst snd].
    f_equal. f_equal; lia.
  - cbn [repeat main_loop] in H. rewrite Hrun in H.
    apply bind_inv in H. destruct H as (g1 & rng1 & Hframe & Hrest).
    unfold frame in Hframe. cbn [process_events] in Hframe.
    unfold bind at 1, ret at 1 in Hframe.
    pose proof (tick_inv g rng g1 rng1 Hinv Hframe) as Hinv1.
    pose proof (tick_running_flag g rng g1 rng1 Hframe) as Hrun1.
    rewrite Hrun in Hrun1.
    destruct (IH g1 rng1 g' rng' Hinv1 Hrun1 Hrest Hlive)
      as (Hd & c1 & Hc1 & Hc').
    assert (Hlive1 : game_over g1 = false).
    { destruct (game_over g1) eqn:E; [|reflexivity].
      pose proof (idle_frames_keep_game_over k g1 rng1 g' rng' E Hrest).
      congruence. }
    destruct (tick_still_running g rng g1 rng1 Hinv Hframe Hlive1)
      as (_ & Hd1 & c0 & Hc0 & Hc1').
    split; [congruence|]. exists c0. split; [exact Hc0|].
    rewrite Hc'. rewrite Hc1' in Hc1. injection Hc1 as <-.
    rewrite Hd1. cbn [fst snd]. f_equal. f_equal; lia.
Qed.

(** X18.  Without input the game cannot go on for long: from a reachable
    state, forty frames in a row with no event end in GameOver whenever they
    return, since the snake keeps its direction and leaves the arena after
    at most forty steps. *)
Theorem forty_idle_frames_end_game
        (g : Game) (rng : list Z) (g' : Game) (rng' : list Z)
        (Hreach : reachable g) (Hrun : running g = true)
        (Hloop : main_loop (repeat [] 40) g rng = Ok (g', rng')) :
  game_over g' = true.
Proof.
  destruct (game_over g') eqn:Hlive; [reflexivity|]. exfalso.
  pose proof (reachable_inv g Hreach) as Hinv.
  destruct (idle_frames_still_running 40 g rng g' rng' Hinv Hrun Hloop Hlive)
    as (_ & c0 & Hc0 & Hc').
  assert (Hlive0 : game_over g = false).
  { destruct (game_over g) eqn:E; [|reflexivity].
    pose proof (idle_frames_keep_game_over 40 g rng g' rng' E Hloop).
    congruence. }
  pose proof (main_loop_reachable _ _ _ _ _ Hreach Hloop) as Hreach'.
  pose proof (inv_running_head g (reachable_play_inv g Hreach) Hlive0) as Hb.
  pose proof (inv_running_head g' (reachable_play_inv g' Hreach') Hlive) as Hb'.
  pose proof (inv_direction g (reachable_play_inv g Hreach)) as Hd.
  unfold Snake.head in Hc0, Hc'.
  destruct (Snake.body (snake g)) as [|h0 r0]; [discriminate Hc0|].
  destruct (Snake.body (snake g')) as [|h1 r1]; [discriminate Hc'|].
  injection Hc0 as <-. injection Hc' as ->.
  inversion Hb as [|x l (_ & Bx & By_) _]. subst.
  inversion Hb' as [|x l (_ & Bx' & By') _]. subst.
  cbn [fst snd] in Bx', By'.
  apply unit_vectors_cases in Hd.
  destruct Hd as [E | [E | [E | E]]]; rewrite E in Bx', By';
    simpl in Bx', By'; lia.
Qed.

Lemma forty_idle_frames_end_game_witness :
  reachable three_long_game /\
  running three_long_game = true /\
  main_loop (repeat [] 40) three_long_game [] =
    Ok (mkGame (Snake.mk [(400, -20); (400, 0); (400, 20)] (0, -1) 20)
               (Food.mk (0, 0) 20) 2 7 true true, []) /\
  game_over (mkGame (Snake.mk [(400, -20); (400, 0); (400, 20)] (0, -1) 20)
                    (Food.mk (0, 0) 20) 2 7 true true) = true.
Proof.
  assert (Hloop : main_loop (repeat [] 40) three_long_game [] =
            Ok (mkGame (Snake.mk [(400, -20); (400, 0); (400, 20)] (0, -1) 20)
                       (Food.mk (0, 0) 20) 2 7 true true, [])).
  { vm_compute. reflexivity. }
  split; [exact three_long_reachable|]. split; [reflexivity|].
  split; [exact Hloop|].
  exact (forty_idle_frames_end_game
           three_long_game []
           (mkGame (Snake.mk [(400, -20); (400, 0); (400, 20)] (0, -1) 20)
                   (Food.mk (0, 0) 20) 2 7 true true) []
           three_long_reachable (eq_refl true) Hloop).
Defined.
